(** * SagaInventory: the CSV import pipeline and the sale write path

    A shallow embedding of
    - [client/src/lib/import.ts] ([parseCSV], [parseCSVLine] and the cell
      validators),
    - the bulk import handler [handleFileChange] of
      [client/src/pages/products.tsx],
    - the sale insert schemas of [shared/schema-sqlite.ts],
    together with the properties the specification states about them.

    JavaScript strings are modelled by [string]; a character stands for one
    UTF-16 code unit below 256 (the Latin-1 range), which is the range the
    whitespace and case tables below cover. *)

From Stdlib Require Import Ascii ZArith QArith.
From stdpp Require Import gmap strings list fin_maps pretty.


Local Open Scope stdpp_scope.

(** ** JavaScript primitives used by the sources *)

Module Js.

Definition DQUOTE : ascii := "034"%char.
Definition COMMA : ascii := ","%char.
Definition LF : ascii := "010"%char.
Definition CR : ascii := "013"%char.

Definition charEq (a b : ascii) : bool := Ascii.eqb a b.

(** [WhiteSpace] and [LineTerminator] code units below 256: TAB, LF, VT,
    FF, CR, SPACE and NBSP. [String.prototype.trim], [parseInt] and
    [parseFloat] all strip exactly this set. *)
Definition isWhiteSpace (c : ascii) : bool :=
  let n := nat_of_ascii c in
  (Nat.leb 9 n && Nat.leb n 13) || Nat.eqb n 32 || Nat.eqb n 160.

Fixpoint trimStart (s : string) : string :=
  match s with
  | EmptyString => EmptyString
  | String c rest => if isWhiteSpace c then trimStart rest else s
  end.

Fixpoint trimEnd (s : string) : string :=
  match s with
  | EmptyString => EmptyString
  | String c rest =>
      match trimEnd rest with
      | EmptyString => if isWhiteSpace c then EmptyString else String c EmptyString
      | kept => String c kept
      end
  end.

(** [s.trim()] *)
Definition trim (s : string) : string := trimEnd (trimStart s).

(** A string is truthy when it is not empty. *)
Definition truthy (s : string) : bool :=
  match s with EmptyString => false | String _ _ => true end.

(** [toLowerCase] on one code unit below 256: A-Z, and the Latin-1 capitals
    U+00C0..U+00DE except the multiplication sign U+00D7. On such strings
    the method maps each character on its own; its rule that looks at the
    neighbours of a character concerns a capital outside this range. *)
Definition lowerChar (c : ascii) : ascii :=
  let n := nat_of_ascii c in
  if (Nat.leb 65 n && Nat.leb n 90)
     || (Nat.leb 192 n && Nat.leb n 222 && negb (Nat.eqb n 215))
  then ascii_of_nat (n + 32) else c.

Fixpoint toLowerCase (s : string) : string :=
  match s with
  | EmptyString => EmptyString
  | String c rest => String (lowerChar c) (toLowerCase rest)
  end.

(** [text.split(/\r?\n/)]: a line ends at LF, and a CR immediately before
    that LF belongs to the separator. *)
Fixpoint splitLines (text : string) : list string :=
  match text with
  | EmptyString => [EmptyString]
  | String c rest =>
      let keep :=
        match splitLines rest with
        | l :: ls => String c l :: ls
        | [] => [String c EmptyString]
        end in
      if charEq c LF then EmptyString :: splitLines rest
      else if charEq c CR then
        match rest with
        | String c' rest' =>
            if charEq c' LF then EmptyString :: splitLines rest' else keep
        | EmptyString => keep
        end
      else keep
  end.

(** [xs.join(sep)] *)
Fixpoint join (sep : string) (xs : list string) : string :=
  match xs with
  | [] => EmptyString
  | x :: rest =>
      match rest with
      | [] => x
      | _ :: _ => x +:+ sep +:+ join sep rest
      end
  end.

(** [xs.findIndex(p)]; [None] stands for the result -1. *)
Fixpoint findIndex {A} (p : A → bool) (xs : list A) : option nat :=
  match xs with
  | [] => None
  | x :: rest => if p x then Some 0 else S <$> findIndex p rest
  end.

(** Decimal rendering of a non-negative integer inside a template string. *)
Definition showNat (n : nat) : string := pretty n.

(** A value raised by [throw]: an [Error] carrying a message, or anything
    else. *)
Inductive Thrown :=
| ThrownError (message : string)
| ThrownOther.

(** The outcome of a call that may throw. *)
Inductive Outcome (T : Type) :=
| Returned (value : T)
| Threw (e : Thrown).
Arguments Returned {T} value.
Arguments Threw {T} e.

#[global] Instance outcome_ret : MRet Outcome := λ A x, Returned x.
#[global] Instance outcome_bind : MBind Outcome := λ A B f m,
  match m with
  | Returned a => f a
  | Threw e => Threw e
  end.

(** [throw new Error(message)] *)
Definition throwError {T} (message : string) : Outcome T :=
  Threw (ThrownError message).

Definition isDigit (c : ascii) : bool :=
  let n := nat_of_ascii c in Nat.leb 48 n && Nat.leb n 57.

(** Value of a digit in radix 16, [None] for any other character. *)
Definition hexValue (c : ascii) : option Z :=
  let n := nat_of_ascii c in
  if Nat.leb 48 n && Nat.leb n 57 then Some (Z.of_nat (n - 48))
  else if Nat.leb 65 n && Nat.leb n 70 then Some (Z.of_nat (n - 55))
  else if Nat.leb 97 n && Nat.leb n 102 then Some (Z.of_nat (n - 87))
  else None.

Definition digitValue (radix : Z) (c : ascii) : option Z :=
  match hexValue c with
  | Some v => if (v <? radix)%Z then Some v else None
  | None => None
  end.

(** The longest prefix of [s] made of digits of [radix], read as an integer;
    [None] when that prefix is empty. [acc] is the value read so far. *)
Fixpoint readDigits (radix : Z) (s : string) (acc : option Z) : option Z :=
  match s with
  | EmptyString => acc
  | String c rest =>
      match digitValue radix c with
      | Some v => readDigits radix rest (Some (default 0%Z acc * radix + v)%Z)
      | None => acc
      end
  end.

(** The mathematical integer that [parseInt(s)], without a radix, reads:
    leading white space is skipped, a sign is read, a [0x] or [0X] prefix
    selects radix 16, and the longest run of digits is the value. [None]
    when there is no digit to read. *)
Definition parseIntMath (s : string) : option Z :=
  let S0 := trimStart s in
  let '(sign, S1) :=
    match S0 with
    | String c rest =>
        if charEq c "-"%char then ((-1)%Z, rest)
        else if charEq c "+"%char then (1%Z, rest)
        else (1%Z, S0)
    | EmptyString => (1%Z, S0)
    end in
  let '(radix, S2) :=
    match S1 with
    | String "0"%char (String x rest) =>
        if charEq x "x"%char || charEq x "X"%char then (16%Z, rest) else (10%Z, S1)
    | _ => (10%Z, S1)
    end in
  (λ n, (sign * n)%Z) <$> readDigits radix S2 None.

(** The numbers [parseInt] can return: [NaN], an infinity, or a double
    whose value is an integer (minus zero counts as zero). *)
Inductive JsNumber :=
| NotANumber
| Infinite (negative : bool)
| Integer (z : Z).

(** The double nearest to an integer: exact below 2^53 in magnitude, else
    rounded to 53 significant bits, ties to the even one, and an infinity
    once the rounded magnitude reaches 2^1024. *)
Definition roundToDouble (n : Z) : JsNumber :=
  let a := Z.abs n in
  if (a <? 2 ^ 53)%Z then Integer n
  else
    let e := (Z.log2 a - 52)%Z in
    let q := Z.shiftr a e in
    let r := Z.land a (Z.ones e) in
    let half := Z.shiftl 1 (e - 1) in
    let q' := if (half <? r)%Z || ((r =? half)%Z && Z.odd q) then (q + 1)%Z else q in
    let m := Z.shiftl q' e in
    if (2 ^ 1024 <=? m)%Z then Infinite (n <? 0)%Z
    else Integer (Z.sgn n * m)%Z.

(** [parseInt(s)]: the integer read, as a double, or [NaN]. (For more than
    twenty decimal digits the language lets an engine round the digits
    first; the exact rounding is taken here.) *)
Definition parseInt (s : string) : JsNumber :=
  match parseIntMath s with
  | None => NotANumber
  | Some mathInt => roundToDouble mathInt
  end.

(** [isNaN(num)] *)
Definition isNaN (num : JsNumber) : bool :=
  match num with NotANumber => true | _ => false end.

(** The integer an integer-valued number stands for. *)
Definition integerOf (num : JsNumber) : Z :=
  match num with Integer z => z | _ => 0%Z end.

(** Splits [s] into its longest prefix of decimal digits and the rest. *)
Fixpoint spanDigits (s : string) : string * string :=
  match s with
  | String c rest =>
      if isDigit c then
        let '(ds, tl) := spanDigits rest in (String c ds, tl)
      else (EmptyString, s)
  | EmptyString => (EmptyString, EmptyString)
  end.

Fixpoint isPrefixOf (p s : string) : bool :=
  match p, s with
  | EmptyString, _ => true
  | String a p', String b s' => charEq a b && isPrefixOf p' s'
  | String _ _, EmptyString => false
  end.

(** The [ExponentPart] at the head of [s], or the empty string. *)
Definition exponentPart (s : string) : string :=
  match s with
  | String e rest =>
      if charEq e "e"%char || charEq e "E"%char then
        let '(sgn, rest') :=
          match rest with
          | String c r =>
              if charEq c "+"%char || charEq c "-"%char
              then (String c EmptyString, r) else (EmptyString, rest)
          | EmptyString => (EmptyString, rest)
          end in
        match spanDigits rest' with
        | (EmptyString, _) => EmptyString
        | (ds, _) => String e (sgn +:+ ds)
        end
      else EmptyString
  | EmptyString => EmptyString
  end.

(** The longest prefix of [s] that is a [StrUnsignedDecimalLiteral]. *)
Definition unsignedDecimalLiteral (s : string) : option string :=
  if isPrefixOf "Infinity" s then Some "Infinity"
  else
    match spanDigits s with
    | (EmptyString, String c rest) =>
        if charEq c "."%char then
          match spanDigits rest with
          | (EmptyString, _) => None
          | (fs, tl) => Some ("." +:+ fs +:+ exponentPart tl)
          end
        else None
    | (EmptyString, EmptyString) => None
    | (ds, String c rest) =>
        if charEq c "."%char then
          let '(fs, tl) := spanDigits rest in
          Some (ds +:+ "." +:+ fs +:+ exponentPart tl)
        else Some (ds +:+ exponentPart (String c rest))
    | (ds, EmptyString) => Some ds
    end.

(** A JavaScript number that is not [NaN], kept as the decimal literal that
    denotes it; the double it rounds to is not computed. *)
Definition NumberLit := string.

(** [parseFloat(s)]: leading white space is skipped and the longest prefix
    that is a [StrDecimalLiteral] is the value. [None] stands for [NaN]. *)
Definition parseFloat (s : string) : option NumberLit :=
  match trimStart s with
  | String c rest =>
      if charEq c "-"%char || charEq c "+"%char
      then String c <$> unsignedDecimalLiteral rest
      else unsignedDecimalLiteral (String c rest)
  | EmptyString => None
  end.

End Js.

(** ** More string methods, [Set] and regular expressions *)

Module JsText.

Import Js.

(** [s.startsWith(p)] *)
Definition startsWith (s p : string) : bool := isPrefixOf p s.

(** [s.includes(t)]: [t] occurs in [s] at some position. *)
Fixpoint includes (s t : string) : bool :=
  isPrefixOf t s ||
  match s with
  | String _ rest => includes rest t
  | EmptyString => false
  end.

Fixpoint dropChars (n : nat) (s : string) : string :=
  match n, s with
  | S n', String _ rest => dropChars n' rest
  | _, _ => s
  end.

(** [s.replace(pattern, replacement)] for a string pattern and a
    replacement without [$]: the first occurrence is replaced, and a string
    without occurrence is returned as it is. *)
Fixpoint replaceFirst (s pattern replacement : string) : string :=
  if isPrefixOf pattern s
  then replacement +:+ dropChars (String.length pattern) s
  else
    match s with
    | String c rest => String c (replaceFirst rest pattern replacement)
    | EmptyString => EmptyString
    end.

(** [set.add(x)] on the elements of a [Set] in insertion order. *)
Definition setAdd (elements : list string) (x : string) : list string :=
  if decide (x ∈ elements) then elements else elements ++ [x].

(** [Array.from(new Set(xs))]: the distinct elements of [xs], each at the
    place of its first occurrence. *)
Definition uniqueInOrder (xs : list string) : list string :=
  foldl setAdd [] xs.

Definition notQuote (c : ascii) : bool := negb (charEq c DQUOTE).

(** Neither CR nor LF. *)
Definition notLineBreak (c : ascii) : bool :=
  negb (charEq c CR) && negb (charEq c LF).

(** [s.split(sep)] for a one-character separator. *)
Fixpoint splitOn (sep : ascii) (s : string) : list string :=
  match s with
  | EmptyString => [EmptyString]
  | String c rest =>
      if charEq c sep then EmptyString :: splitOn sep rest
      else
        match splitOn sep rest with
        | l :: ls => String c l :: ls
        | [] => [String c EmptyString]
        end
  end.

Fixpoint allChars (p : ascii → bool) (s : string) : bool :=
  match s with
  | EmptyString => true
  | String c rest => p c && allChars p rest
  end.

End JsText.

Module JsRegExp.

Import Js.

(** The regular expressions the sources use: character classes, sequence
    and repetition. [Never] and [Alt] only arise while matching. *)
Inductive RegExp :=
| Never
| Empty
| Class (p : ascii → bool)
| Seq (r1 r2 : RegExp)
| Alt (r1 r2 : RegExp)
| Star (r : RegExp).

(** [r+] *)
Definition Plus (r : RegExp) : RegExp := Seq r (Star r).

(** A literal character. *)
Definition Lit (c : ascii) : RegExp := Class (charEq c).

Fixpoint nullable (r : RegExp) : bool :=
  match r with
  | Never => false
  | Empty => true
  | Class _ => false
  | Seq r1 r2 => nullable r1 && nullable r2
  | Alt r1 r2 => nullable r1 || nullable r2
  | Star _ => true
  end.

(** What is left of [r] to match once [c] has been read. *)
Fixpoint derive (c : ascii) (r : RegExp) : RegExp :=
  match r with
  | Never => Never
  | Empty => Never
  | Class p => if p c then Empty else Never
  | Seq r1 r2 =>
      if nullable r1
      then Alt (Seq (derive c r1) r2) (derive c r2)
      else Seq (derive c r1) r2
  | Alt r1 r2 => Alt (derive c r1) (derive c r2)
  | Star r1 => Seq (derive c r1) (Star r1)
  end.

(** [/^r$/.test(s)]: the whole of [s] matches [r]. *)
Fixpoint test (r : RegExp) (s : string) : bool :=
  match s with
  | EmptyString => nullable r
  | String c rest => test (derive c r) rest
  end.

(** The strings a regular expression denotes. *)
Inductive Matches : RegExp → string → Prop :=
| MEmpty : Matches Empty EmptyString
| MClass p c : p c = true → Matches (Class p) (String c EmptyString)
| MSeq r1 r2 s1 s2 :
    Matches r1 s1 → Matches r2 s2 → Matches (Seq r1 r2) (s1 +:+ s2)
| MAltL r1 r2 s : Matches r1 s → Matches (Alt r1 r2) s
| MAltR r1 r2 s : Matches r2 s → Matches (Alt r1 r2) s
| MStarNil r : Matches (Star r) EmptyString
| MStarApp r s1 s2 :
    Matches r s1 → Matches (Star r) s2 → Matches (Star r) (s1 +:+ s2).

End JsRegExp.

(** ** [client/src/lib/import.ts] *)

Module ImportLib.

Import Js.

(** One entry [{ csvHeader, field }] of a column mapping. *)
Record ColumnMapping := { csvHeader : string; field : string }.

(** [ParseCSVResult<T>] *)
Record ParseCSVResult (T : Type) := { data : list T; errors : list string }.
Arguments data {T} _.
Arguments errors {T} _.

(** [Record<string, string>]: the own properties of the row object. *)
Abbreviation RowData := (gmap string string).

(** What [FileReader.readAsText] delivers: [onload] with the text, or
    [onerror]. *)
Inductive FileRead :=
| Loaded (text : string)
| ReadFailed.

(** *** [parseCSVLine] *)

(** The loop of [parseCSVLine] over the characters still to be read:
    [char] is the head, [nextChar] the head of the remainder, and the
    [i++] of the escaped-quote branch drops both. *)
Fixpoint parseCSVLine_loop (line : string) (current : string)
    (inQuotes : bool) (result : list string) : list string :=
  match line with
  | EmptyString => result ++ [trim current]
  | String char rest =>
      if charEq char DQUOTE then
        match inQuotes, rest with
        | true, String nextChar rest' =>
            if charEq nextChar DQUOTE
            then parseCSVLine_loop rest' (current +:+ String DQUOTE EmptyString)
                   inQuotes result
            else parseCSVLine_loop rest current (negb inQuotes) result
        | _, _ => parseCSVLine_loop rest current (negb inQuotes) result
        end
      else if charEq char COMMA && negb inQuotes then
        parseCSVLine_loop rest EmptyString inQuotes (result ++ [trim current])
      else
        parseCSVLine_loop rest (current +:+ String char EmptyString) inQuotes result
  end.

Definition parseCSVLine (line : string) : list string :=
  parseCSVLine_loop line EmptyString false [].

(** *** [parseCSV] *)

(** [text.split(/\r?\n/).filter(line => line.trim())] *)
Definition nonBlankLines (text : string) : list string :=
  filter (λ line, truthy (trim line) = true) (splitLines text).

(** The predicate given to [headers.findIndex] for one mapping entry. *)
Definition headerMatches (csvHeader : string) (h : string) : bool :=
  String.eqb (trim (toLowerCase h)) (trim (toLowerCase csvHeader)).

Definition missingColumn (csvHeader : string) : string :=
  "Required column " +:+ String DQUOTE csvHeader
    +:+ String DQUOTE " not found in CSV".

(** One round of the first [columnMapping.forEach]: the state is the
    [columnIndices] map, keyed by field, and the [errors] array. *)
Definition resolveColumn (headers : list string)
    (st : gmap string nat * list string) (m : ColumnMapping)
    : gmap string nat * list string :=
  match findIndex (headerMatches (csvHeader m)) headers with
  | None => (st.1, st.2 ++ [missingColumn (csvHeader m)])
  | Some index => (<[field m := index]> st.1, st.2)
  end.

Definition resolveColumns (headers : list string)
    (columnMapping : list ColumnMapping) : gmap string nat * list string :=
  foldl (resolveColumn headers) (∅, []) columnMapping.

(** [obj[key] = value] on an object literal. The inherited [__proto__]
    setter ignores a string, so that one key never becomes an own
    property. *)
Definition setProperty (obj : RowData) (key value : string) : RowData :=
  if String.eqb key "__proto__" then obj else <[key := value]> obj.

(** [values[index] || ''] *)
Definition cellOrEmpty (values : list string) (index : nat) : string :=
  match values !! index with
  | Some v => if truthy v then v else EmptyString
  | None => EmptyString
  end.

(** One round of the second [columnMapping.forEach], which fills [rowData]. *)
Definition fillCell (columnIndices : gmap string nat) (values : list string)
    (rowData : RowData) (m : ColumnMapping) : RowData :=
  match columnIndices !! field m with
  | Some index => setProperty rowData (csvHeader m) (cellOrEmpty values index)
  | None => rowData
  end.

Definition buildRow (columnIndices : gmap string nat)
    (columnMapping : list ColumnMapping) (values : list string) : RowData :=
  foldl (fillCell columnIndices values) ∅ columnMapping.

(** [error instanceof Error ? error.message : 'Invalid data'] *)
Definition thrownMessage (e : Thrown) : string :=
  match e with
  | ThrownError message => message
  | ThrownOther => "Invalid data"
  end.

(** The message pushed by the [catch] of iteration [i]. *)
Definition rowError (i : nat) (e : Thrown) : string :=
  "Error on row " +:+ showNat (i + 1) +:+ ": " +:+ thrownMessage e.

(** The optional [transform] argument: a function that may throw, or
    nothing, in which case the raw row is cast to the record type
    ([rowData as T]). *)
Inductive Transform (T : Type) :=
| WithTransform (f : RowData → Outcome T)
| NoTransform (asT : RowData → T).
Arguments WithTransform {T} f.
Arguments NoTransform {T} asT.

Section ParseCSV.

Context {T : Type}.
Variable columnMapping : list ColumnMapping.
Variable transform : Transform T.

(** [transform ? transform(rowData) : rowData] *)
Definition applyTransform (rowData : RowData) : Outcome T :=
  match transform with
  | WithTransform f => f rowData
  | NoTransform asT => Returned (asT rowData)
  end.

(** The [for] loop over the data rows, from iteration [i] on: [rest] holds
    [lines[i]], [lines[i+1]], ... and [data], [errors] are the two arrays as
    filled so far. *)
Fixpoint parseRows (columnIndices : gmap string nat) (i : nat)
    (rest : list string) (data : list T) (errors : list string)
    : ParseCSVResult T :=
  match rest with
  | [] => {| data := data; errors := errors |}
  | raw :: rest' =>
      let line := trim raw in
      if negb (truthy line) then parseRows columnIndices (S i) rest' data errors
      else
        let values := parseCSVLine line in
        let rowData := buildRow columnIndices columnMapping values in
        match applyTransform rowData with
        | Returned transformedRow =>
            parseRows columnIndices (S i) rest' (data ++ [transformedRow]) errors
        | Threw e =>
            parseRows columnIndices (S i) rest' data (errors ++ [rowError i e])
        end
  end.

(** The body of [reader.onload]. *)
Definition parseCSV_onload (text : string) : ParseCSVResult T :=
  let lines := nonBlankLines text in
  match lines with
  | [] => {| data := []; errors := ["CSV file is empty"] |}
  | headerLine :: rows =>
      let headers := parseCSVLine headerLine in
      let '(columnIndices, errors) := resolveColumns headers columnMapping in
      if Nat.ltb 0 (length errors) then {| data := []; errors := errors |}
      else parseRows columnIndices 1 rows [] errors
  end.

(** [parseCSV(file, columnMapping, transform)]: the value the returned
    promise resolves to. *)
Definition parseCSV (file : FileRead) : ParseCSVResult T :=
  match file with
  | Loaded text => parseCSV_onload text
  | ReadFailed => {| data := []; errors := ["Failed to read file"] |}
  end.

End ParseCSV.

(** *** Validators *)

Definition validateRequired (value fieldName : string) : Outcome string :=
  if negb (truthy value) || String.eqb (trim value) EmptyString
  then throwError (fieldName +:+ " is required")
  else Returned (trim value).

Definition validateNumber (value fieldName : string) : Outcome NumberLit :=
  match parseFloat value with
  | None => throwError (fieldName +:+ " must be a valid number")
  | Some num => Returned num
  end.

(** [Number.isInteger(num)] *)
Definition isInteger (num : JsNumber) : bool :=
  match num with Integer _ => true | _ => false end.

(** The number returned is an integer-valued double; it is kept as that
    integer. *)
Definition validateInteger (value fieldName : string) : Outcome Z :=
  let num := parseInt value in
  if isNaN num || negb (isInteger num)
  then throwError (fieldName +:+ " must be a valid integer")
  else Returned (integerOf num).

(** [[^\s@]]: any character but white space and the at sign. *)
Definition emailChar (c : ascii) : bool :=
  negb (isWhiteSpace c) && negb (charEq c "@"%char).

(** [/^[^\s@]+@[^\s@]+\.[^\s@]+$/] *)
Definition emailRegex : JsRegExp.RegExp :=
  JsRegExp.Seq (JsRegExp.Plus (JsRegExp.Class emailChar))
    (JsRegExp.Seq (JsRegExp.Lit "@"%char)
       (JsRegExp.Seq (JsRegExp.Plus (JsRegExp.Class emailChar))
          (JsRegExp.Seq (JsRegExp.Lit "."%char)
             (JsRegExp.Plus (JsRegExp.Class emailChar))))).

Definition validateEmail (value fieldName : string) : Outcome string :=
  let email := trim value in
  if negb (JsRegExp.test emailRegex email)
  then throwError (fieldName +:+ " must be a valid email address")
  else Returned email.

End ImportLib.

(** ** The bulk import of [client/src/pages/products.tsx] *)

Module ProductsPage.

Import Js ImportLib.

(** [InsertProduct] as the row transform builds it. The two prices are the
    [toString()] of the parsed numbers; the record keeps the literal that was
    read, where the code posts the shortest decimal text of the double it
    denotes (10.5 for a cell 10.50). Whether a price is accepted is exact;
    its text is not. *)
Record InsertProduct := {
  stockCode : string;
  name : string;
  category : string;
  buyingPrice : NumberLit;
  sellingPrice : NumberLit;
  quantity : Z;
  supplierId : option string
}.

Definition productColumns : list ColumnMapping :=
  [ {| csvHeader := "Stock Code"; field := "stockCode" |};
    {| csvHeader := "Product Name"; field := "name" |};
    {| csvHeader := "Category"; field := "category" |};
    {| csvHeader := "Buying Price"; field := "buyingPrice" |};
    {| csvHeader := "Selling Price"; field := "sellingPrice" |};
    {| csvHeader := "Quantity"; field := "quantity" |};
    {| csvHeader := "Supplier ID"; field := "supplierId" |} ].

(** [row[key]]. A property that is absent reads as [undefined]; each use
    in [productTransform] treats [undefined] exactly like the empty string
    ([!value], [parseFloat], [parseInt] and [?.trim() || null]). *)
Definition cell (row : RowData) (key : string) : string :=
  default EmptyString (row !! key).

(** The row transform passed to [parseCSV]; the properties of the object
    literal are evaluated in order and the first throw ends the call. *)
Definition productTransform (row : RowData) : Outcome InsertProduct :=
  stockCode ← validateRequired (cell row "Stock Code") "Stock Code";
  name ← validateRequired (cell row "Product Name") "Product Name";
  category ← validateRequired (cell row "Category") "Category";
  buyingPrice ← validateNumber (cell row "Buying Price") "Buying Price";
  sellingPrice ← validateNumber (cell row "Selling Price") "Selling Price";
  quantity ← validateInteger (cell row "Quantity") "Quantity";
  let supplier := trim (cell row "Supplier ID") in
  mret {| stockCode := stockCode; name := name; category := category;
          buyingPrice := buyingPrice; sellingPrice := sellingPrice;
          quantity := quantity;
          supplierId := if truthy supplier then Some supplier else None |}.

(** A call of [toast]. *)
Record Toast := { title : string; description : string; destructive : bool }.

Section HandleFileChange.

Context {Server : Type}.

(** [apiRequest("POST", "/api/products", product)] against the server in
    a given state: the state after the request, and whether the promise
    resolved ([true]) or rejected ([false]). *)
Variable apiRequest : Server → InsertProduct → Server * bool.

(** The state of the import loop. [posted] records the requests issued, in
    order. *)
Record ImportState := {
  server : Server;
  successCount : nat;
  failCount : nat;
  posted : list InsertProduct
}.

(** One iteration of [for (const product of result.data)]. *)
Definition postOne (st : ImportState) (product : InsertProduct) : ImportState :=
  let '(srv, resolved) := apiRequest (server st) product in
  {| server := srv;
     successCount := if resolved then S (successCount st) else successCount st;
     failCount := if resolved then failCount st else S (failCount st);
     posted := posted st ++ [product] |}.

Definition importComplete (st : ImportState) : Toast :=
  {| title := "Import complete";
     description :=
       showNat (successCount st) +:+ " products imported successfully"
       +:+ (if Nat.ltb 0 (failCount st)
            then ", " +:+ showNat (failCount st) +:+ " failed"
            else EmptyString);
     destructive := false |}.

Definition importErrors (errors : list string) : Toast :=
  {| title := "Import errors";
     description := join ", " (take 3 errors);
     destructive := true |}.

(** [handleFileChange]: [file] is [event.target.files?.[0]] as the reader
    delivers it, [None] when no file was chosen. The result is the loop
    state at the end and the toast shown, if any. *)
Definition handleFileChange (srv : Server) (file : option FileRead)
    : ImportState * option Toast :=
  let idle := {| server := srv; successCount := 0; failCount := 0; posted := [] |} in
  match file with
  | None => (idle, None)
  | Some f =>
      let result := parseCSV productColumns (WithTransform productTransform) f in
      if Nat.ltb 0 (length (errors result)) then
        (idle, Some (importErrors (errors result)))
      else
        let st := foldl postOne idle (data result) in
        (st, Some (importComplete st))
  end.

End HandleFileChange.

End ProductsPage.

(** ** The sale insert schemas of [shared/schema-sqlite.ts] *)

Module SchemaSqlite.

(** A request body as the validators see it. An object is its list of
    properties, one entry per key. *)
#[warnings="-register-all"]
Inductive Json :=
| JNull
| JBool (b : bool)
| JNumber (q : Q)
| JString (s : string)
| JArray (xs : list Json)
| JObject (props : list (string * Json)).

(** [obj[key]]; [None] stands for [undefined]. *)
Fixpoint getProp (key : string) (props : list (string * Json)) : option Json :=
  match props with
  | [] => None
  | (k, v) :: rest => if String.eqb k key then Some v else getProp key rest
  end.

(** [z.string()] *)
Definition zString (v : Json) : bool :=
  match v with JString _ => true | _ => false end.

(** [z.array(element)]: any array, of any length, all of whose elements
    pass [element]. *)
Definition zArray (element : Json → bool) (v : Json) : bool :=
  match v with JArray xs => forallb element xs | _ => false end.

(** A required property of a [z.object]. *)
Definition required (schema : Json → bool) (key : string)
    (props : list (string * Json)) : bool :=
  match getProp key props with
  | Some v => schema v
  | None => false
  end.

(** A property made [.optional()], as [createInsertSchema] does for a
    column that has a default. *)
Definition optional (schema : Json → bool) (key : string)
    (props : list (string * Json)) : bool :=
  match getProp key props with
  | Some v => schema v
  | None => true
  end.

Section Schemas.

(** The validator [createInsertSchema] derives for a [NOT NULL] integer
    column; it belongs to drizzle-zod, not to this repository. *)
Variable integerColumn : Json → bool.

(** [insertSaleItemSchema]: the columns of [saleItems] but [id] and
    [saleId], the three amounts as strings. Unknown keys are ignored. *)
Definition insertSaleItemSchema (v : Json) : bool :=
  match v with
  | JObject props =>
      required zString "productId" props
      && required zString "productName" props
      && required zString "stockCode" props
      && required integerColumn "quantity" props
      && required zString "unitPrice" props
      && required zString "buyingPrice" props
      && required zString "subtotal" props
  | _ => false
  end.

(** [insertSaleSchema]: the columns of [sales] but [id], [createdAt] and
    [receiptNumber], the three amounts as strings, and [items]. *)
Definition insertSaleSchema (v : Json) : bool :=
  match v with
  | JObject props =>
      required zString "customerId" props
      && required zString "sellerId" props
      && required zString "subtotal" props
      && required zString "discount" props
      && optional zString "discountType" props
      && required zString "total" props
      && required zString "paymentMethod" props
      && required (zArray insertSaleItemSchema) "items" props
  | _ => false
  end.

End Schemas.

(** [z.number().int()] *)
Definition zNumberInt (v : Json) : bool :=
  match v with
  | JNumber q => Z.eqb (Z.rem (Qnum q) (Zpos (Qden q))) 0
  | _ => false
  end.

(** A sale request body with the given scalar fields and items. *)
Definition saleBody (customerId sellerId subtotal discount total
    paymentMethod : string) (items : list Json) : Json :=
  JObject [ ("customerId", JString customerId);
            ("sellerId", JString sellerId);
            ("subtotal", JString subtotal);
            ("discount", JString discount);
            ("total", JString total);
            ("paymentMethod", JString paymentMethod);
            ("items", JArray items) ].

End SchemaSqlite.

(** ** The sale transaction writer *)

Module SaleWriter.

Record Product := {
  stockCode : string;
  name : string;
  buyingPrice : Q;
  sellingPrice : Q;
  quantity : Z
}.

Record SaleLine := {
  productId : string;
  lineQuantity : Z;
  unitPriceOverride : option Q
}.

Inductive DiscountType := Percentage | Fixed.

Record SaleRequest := {
  customerId : string;
  sellerId : string;
  items : list SaleLine;
  discount : Q;
  discountType : DiscountType;
  paymentMethod : string
}.

Record SaleItem := {
  itemReceipt : string;
  itemProductId : string;
  itemProductName : string;
  itemStockCode : string;
  itemQuantity : Z;
  itemUnitPrice : Q;
  itemBuyingPrice : Q;
  itemSubtotal : Q
}.

Record Sale := {
  receiptNumber : string;
  saleCustomerId : string;
  saleSellerId : string;
  subtotal : Q;
  saleDiscount : Q;
  saleDiscountType : DiscountType;
  total : Q;
  salePaymentMethod : string
}.

(** The persistent store as far as a sale touches it. *)
Record Store := {
  products : gmap string Product;
  sales : list Sale;
  saleItems : list SaleItem
}.

Inductive SaleError :=
| EmptyCartError
| ProductNotFoundError (productId : string)
| InsufficientStockError (stockCodes : list string).

(** Resolves every line to its current product, in order; the first line
    whose product is missing fails the lookup. *)
Fixpoint resolveLines (ps : gmap string Product) (lines : list SaleLine)
    : SaleError + list (SaleLine * Product) :=
  match lines with
  | [] => inr []
  | l :: rest =>
      match ps !! productId l with
      | None => inl (ProductNotFoundError (productId l))
      | Some p =>
          match resolveLines ps rest with
          | inl e => inl e
          | inr resolved => inr ((l, p) :: resolved)
          end
      end
  end.

Definition unitPrice (lp : SaleLine * Product) : Q :=
  default (sellingPrice lp.2) (unitPriceOverride lp.1).

Definition lineSubtotal (lp : SaleLine * Product) : Q :=
  (unitPrice lp * inject_Z (lineQuantity lp.1))%Q.

(** A line is short when [product.quantity - line.quantity >= 0] fails. *)
Definition shortOfStock (lp : SaleLine * Product) : bool :=
  (quantity lp.2 - lineQuantity lp.1 <? 0)%Z.

Definition offendingCodes (resolved : list (SaleLine * Product)) : list string :=
  map (λ lp, stockCode lp.2) (filter (λ lp, shortOfStock lp = true) resolved).

Definition saleTotal (sub disc : Q) (kind : DiscountType) : Q :=
  let raw :=
    match kind with
    | Fixed => (sub - disc)%Q
    | Percentage => (sub - sub * disc / inject_Z 100)%Q
    end in
  if Qle_bool raw 0 then 0%Q else raw.

(** A receipt number no stored sale has: the count of stored sales so
    far, which only grows. *)
Definition nextReceipt (st : Store) : string :=
  "R" +:+ pretty (S (length (sales st))).

Definition snapshot (receipt : string) (lp : SaleLine * Product) : SaleItem :=
  {| itemReceipt := receipt;
     itemProductId := productId lp.1;
     itemProductName := name lp.2;
     itemStockCode := stockCode lp.2;
     itemQuantity := lineQuantity lp.1;
     itemUnitPrice := unitPrice lp;
     itemBuyingPrice := buyingPrice lp.2;
     itemSubtotal := lineSubtotal lp |}.

Definition decrement (amount : Z) (p : Product) : Product :=
  {| stockCode := stockCode p; name := name p;
     buyingPrice := buyingPrice p; sellingPrice := sellingPrice p;
     quantity := quantity p - amount |}.

Definition decrementStock (ps : gmap string Product) (l : SaleLine)
    : gmap string Product :=
  alter (decrement (lineQuantity l)) (productId l) ps.

(** Modelled from the spec: [recordSale], the sale transaction writer of
    section 4.4, whose source is not among the files of the repository
    read here. The steps follow the section in its order: the empty cart
    check, the resolution of every line, the stock check of every line, the
    totals, the receipt number, and the single write of the sale, its items
    and the stock decrements. A failure returns the store as it was. Each
    line is checked against the product as it was resolved, as the section
    words the check; the section does not say how two lines on one product
    add up. *)
Definition recordSale (st : Store) (req : SaleRequest)
    : (SaleError + Sale) * Store :=
  match items req with
  | [] => (inl EmptyCartError, st)
  | _ :: _ =>
      match resolveLines (products st) (items req) with
      | inl e => (inl e, st)
      | inr resolved =>
          match offendingCodes resolved with
          | (_ :: _) as codes => (inl (InsufficientStockError codes), st)
          | [] =>
              let sub := foldr Qplus 0%Q (map lineSubtotal resolved) in
              let receipt := nextReceipt st in
              let sale :=
                {| receiptNumber := receipt;
                   saleCustomerId := customerId req;
                   saleSellerId := sellerId req;
                   subtotal := sub;
                   saleDiscount := discount req;
                   saleDiscountType := discountType req;
                   total := saleTotal sub (discount req) (discountType req);
                   salePaymentMethod := paymentMethod req |} in
              (inr sale,
               {| products := foldl decrementStock (products st) (items req);
                  sales := sales st ++ [sale];
                  saleItems := saleItems st ++ map (snapshot receipt) resolved |})
          end
      end
  end.

End SaleWriter.

(** ** The CSV dialect, as a writer would produce it *)

Module CsvDialect.

Import Js.

(** Doubles every double quote of a field. *)
Fixpoint escapeQuotes (s : string) : string :=
  match s with
  | EmptyString => EmptyString
  | String c rest =>
      if charEq c DQUOTE
      then String DQUOTE (String DQUOTE (escapeQuotes rest))
      else String c (escapeQuotes rest)
  end.

(** A field between double quotes, its own quotes doubled. *)
Definition quoteField (s : string) : string :=
  String DQUOTE (escapeQuotes s +:+ String DQUOTE EmptyString).

(** A line whose fields are all quoted. *)
Definition quotedLine (fields : list string) : string :=
  join "," (map quoteField fields).

Definition startsWithQuote (s : string) : bool :=
  match s with
  | String c _ => charEq c DQUOTE
  | EmptyString => false
  end.

End CsvDialect.

(** ** Reading the result of [parseCSV] row by row *)

Module ParseView.

Import Js ImportLib.

(** The mapping entries whose header no cell of the header row matches. *)
Definition missingEntries (headers : list string)
    (columnMapping : list ColumnMapping) : list ColumnMapping :=
  filter (λ m, findIndex (headerMatches (csvHeader m)) headers = None)
    columnMapping.

(** A line survives the filter of [nonBlankLines]. *)
Definition nonBlank (line : string) : Prop := truthy (trim line) = true.

Section Rows.

Context {T : Type}.
Variable columnMapping : list ColumnMapping.
Variable transform : Transform T.
Variable columnIndices : gmap string nat.

(** What the transform does on the row object built from one raw line. *)
Definition rowOutcome (raw : string) : Outcome T :=
  applyTransform transform
    (buildRow columnIndices columnMapping (parseCSVLine (trim raw))).

Definition rowRecord (raw : string) : option T :=
  match rowOutcome raw with
  | Returned t => Some t
  | Threw _ => None
  end.

(** The error string of a failing row reported under number [position]. *)
Definition rowFailure (position : nat) (raw : string) : option string :=
  match rowOutcome raw with
  | Returned _ => None
  | Threw e =>
      Some ("Error on row " +:+ showNat position +:+ ": " +:+ thrownMessage e)
  end.

End Rows.

(** The reading of the row number as a line number of the input text:
    every failing data row found at 0-based position [k] of the split text
    is reported as row [k + 1]. *)
Definition reportsTextLineNumbers {T} (columnMapping : list ColumnMapping)
    (transform : Transform T) (text : string) : Prop :=
  ∀ headerLine rows k raw message,
    nonBlankLines text = headerLine :: rows →
    splitLines text !! k = Some raw →
    raw ∈ rows →
    rowFailure columnMapping transform
      (resolveColumns (parseCSVLine headerLine) columnMapping).1 (k + 1) raw
      = Some message →
    message ∈ errors (parseCSV columnMapping transform (Loaded text)).

(** The reading of C10 for every entry of a mapping: whenever a data row
    has fewer cells than the index resolved for an entry's field, the row
    object built for that row holds the empty string under the entry's
    header. *)
Definition shortCellsReadEmpty (columnMapping : list ColumnMapping)
    (text : string) : Prop :=
  ∀ headerLine rows raw m index,
    nonBlankLines text = headerLine :: rows →
    raw ∈ rows →
    m ∈ columnMapping →
    (resolveColumns (parseCSVLine headerLine) columnMapping).1 !! field m
      = Some index →
    length (parseCSVLine (trim raw)) < index →
    buildRow (resolveColumns (parseCSVLine headerLine) columnMapping).1
      columnMapping (parseCSVLine (trim raw)) !! csvHeader m
    = Some EmptyString.

End ParseView.

(** ** Concrete inputs *)

Module Scenarios.

Import Js ImportLib ProductsPage.

(** The two lines of the tokenizer examples. *)
Definition acmeLine : string :=
  String DQUOTE ("Acme, Inc" +:+ String DQUOTE ",100,5").

Definition sheSaidLine : string :=
  String DQUOTE ("She said " +:+ String DQUOTE (String DQUOTE
    ("hi" +:+ String DQUOTE (String DQUOTE (String DQUOTE ",1,1"))))).

Definition sheSaidHi : string :=
  "She said " +:+ String DQUOTE ("hi" +:+ String DQUOTE EmptyString).

Definition line (a rest : string) : string := a +:+ String LF rest.

(** A two-column import: a required name and an integer quantity. *)
Definition stockColumns : list ColumnMapping :=
  [ {| csvHeader := "Name"; field := "name" |};
    {| csvHeader := "Qty"; field := "qty" |} ].

Definition stockTransform (row : RowData) : Outcome (string * Z) :=
  n ← validateRequired (cell row "Name") "Name";
  q ← validateInteger (cell row "Qty") "Qty";
  mret (n, q).

(** Header, a good row, a row with a bad quantity, a row with no name. *)
Definition stockText : string :=
  line "name, QTY ,note" (line "bolt,4" (line "nut,many" " ,3")).

(** A header without the quantity column. *)
Definition stockTextNoQty : string := line "name,note" "bolt,4".

(** A blank second line before the one, failing, data row. *)
Definition stockTextWithGap : string :=
  line "Name,Qty" (line EmptyString "nut,many").

Definition productHeader : string :=
  "Stock Code,Product Name,Category,Buying Price,Selling Price,Quantity,Supplier ID".

(** Ten product rows; the fourth has a buying price that is no number. *)
Definition tenProducts : string :=
  line productHeader
  (line "A1,Anvil,Tools,10.5,20,3,"
  (line "A2,Bolt,Tools,1,2,30,S1"
  (line "A3,Chisel,Tools,4,9,4,"
  (line "A4,Drill,Tools,abc,80,2,"
  (line "A5,File,Tools,3,6,8,"
  (line "A6,Gauge,Tools,7,14,5,"
  (line "A7,Hammer,Tools,5,11,9,"
  (line "A8,Iron,Tools,6,12,1,"
  (line "A9,Jack,Tools,15,30,2,"
        "A10,Knife,Tools,2,5,7,"))))))))).

(** Two product rows, both valid. *)
Definition twoProducts : string :=
  line productHeader
  (line "A1,Anvil,Tools,10.5,20,3,"
        "A2,Bolt,Tools,1,2,30,S1").

(** A mapping that declares the header [A] twice, for two fields. *)
Definition overwritingColumns : list ColumnMapping :=
  [ {| csvHeader := "A"; field := "y" |};
    {| csvHeader := "B"; field := "y" |};
    {| csvHeader := "A"; field := "x" |} ].

(** Three header cells and a data row of one cell. *)
Definition oneCellText : string := line "A,C,B" "1".

(** The answers of the server to a sequence of create requests, each sent
    to the state the previous one left, and the state after the last. *)
Fixpoint serverRun {Server : Type}
    (apiRequest : Server → InsertProduct → Server * bool) (srv : Server)
    (records : list InsertProduct) : Server * list bool :=
  match records with
  | [] => (srv, [])
  | p :: rest =>
      let '(srv', resolved) := apiRequest srv p in
      let '(final, answers) := serverRun apiRequest srv' rest in
      (final, resolved :: answers)
  end.

(** A server that refuses a product without stock and accepts the
    others. *)
Definition refuseEmptyStock (held : nat) (p : InsertProduct) : nat * bool :=
  if (quantity p =? 0)%Z then (held, false) else (S held, true).

(** Three product rows, all valid; the second has no stock. *)
Definition threeProducts : string :=
  line productHeader
  (line "A1,Anvil,Tools,10.5,20,3,"
  (line "A2,Bolt,Tools,1,2,0,S1"
        "A3,Chisel,Tools,4,9,4,")).

(** A server that counts the products it holds and refuses none. *)
Definition acceptAll (held : nat) (p : InsertProduct) : nat * bool :=
  (S held, true).

(** The reading of the bulk import as a partial import: one create request
    per record the parse returned, whatever errors it also reported. *)
Definition importsEveryRecord {Server : Type}
    (apiRequest : Server → InsertProduct → Server * bool) (srv : Server)
    (file : FileRead) : Prop :=
  posted (handleFileChange apiRequest srv (Some file)).1
  = data (parseCSV productColumns (WithTransform productTransform) file).

End Scenarios.

(** ** Concrete sales *)

Module SaleScenarios.

Import SchemaSqlite SaleWriter.

(** A store with one product, three in stock. *)
Definition widget : Product :=
  {| stockCode := "SKU-1"; name := "Widget";
     buyingPrice := 1; sellingPrice := 2; quantity := 3 |}.

Definition shelf : Store :=
  {| products := {[ "P" := widget ]}; sales := []; saleItems := [] |}.

Definition fiveWidgets : SaleLine :=
  {| productId := "P"; lineQuantity := 5; unitPriceOverride := None |}.

(** A request for five of the product. *)
Definition order : SaleRequest :=
  {| customerId := "c1"; sellerId := "s1"; items := [fiveWidgets];
     discount := 0; discountType := Percentage; paymentMethod := "cash" |}.

(** Five of the product, and one of a product the store does not have. *)
Definition mixedOrder : SaleRequest :=
  {| customerId := "c1"; sellerId := "s1";
     items := [fiveWidgets;
               {| productId := "Q"; lineQuantity := 1; unitPriceOverride := None |}];
     discount := 0; discountType := Percentage; paymentMethod := "cash" |}.

(** The reading of C7 for every request: a line that asks for more than
    its product has in stock makes the call fail with the
    insufficient-stock error. *)
Definition shortLineIsInsufficientStock (st : Store) (req : SaleRequest) : Prop :=
  ∀ l p,
    l ∈ items req →
    products st !! productId l = Some p →
    (quantity p < lineQuantity l)%Z →
    ∃ codes, (recordSale st req).1 = inl (InsufficientStockError codes).

(** A request body with no item at all. *)
Definition emptySale : Json :=
  saleBody "c1" "s1" "0" "0" "0" "cash" [].

End SaleScenarios.

(** ** The product list of [client/src/pages/products.tsx] *)

Module ProductsView.

Import Js JsText.

(** A row of [products] as the page receives it. *)
Record Product := {
  id : string;
  stockCode : string;
  name : string;
  category : string;
  buyingPrice : Q;
  sellingPrice : Q;
  quantity : Z;
  supplierId : option string
}.

Definition matchesSearch (search : string) (product : Product) : bool :=
  includes (toLowerCase (name product)) (toLowerCase search)
  || includes (toLowerCase (stockCode product)) (toLowerCase search).

(** [selected] is the [category] state of the page. *)
Definition matchesCategory (selected : string) (product : Product) : bool :=
  String.eqb selected "all" || String.eqb (category product) selected.

Definition filteredProducts (products : list Product) (search selected : string)
    : list Product :=
  filter (λ product,
    matchesSearch search product && matchesCategory selected product = true)
    products.

(** [["all", ...Array.from(new Set(products.map(p => p.category)))]] *)
Definition categories (products : list Product) : list string :=
  "all" :: uniqueInOrder (map category products).

End ProductsView.

(** ** The customers page that follows in the same source file *)

Module CustomersPage.

Import Js JsText ImportLib.

Record InsertCustomer := { name : string; phone : string; email : string }.

Definition customerColumns : list ColumnMapping :=
  [ {| csvHeader := "Name"; field := "name" |};
    {| csvHeader := "Phone"; field := "phone" |};
    {| csvHeader := "Email"; field := "email" |} ].

(** The message of the [TypeError] raised by [undefined.trim()] (as V8
    words it). *)
Definition trimOfUndefined : string :=
  "Cannot read properties of undefined (reading 'trim')".

(** The row transform. [validateRequired] treats an absent property like
    the empty string; [validateEmail] calls [trim] on it and throws. *)
Definition customerTransform (row : RowData) : Outcome InsertCustomer :=
  name ← validateRequired (ProductsPage.cell row "Name") "Name";
  phone ← validateRequired (ProductsPage.cell row "Phone") "Phone";
  email ← match row !! "Email" with
          | Some value => validateEmail value "Email"
          | None => throwError trimOfUndefined
          end;
  mret {| name := name; phone := phone; email := email |}.

Section HandleFileChange.

Context {Server : Type}.

(** [apiRequest("POST", "/api/customers", customer)] *)
Variable apiRequest : Server → InsertCustomer → Server * bool.

Record ImportState := {
  server : Server;
  successCount : nat;
  failCount : nat;
  posted : list InsertCustomer
}.

Definition postOne (st : ImportState) (customer : InsertCustomer) : ImportState :=
  let '(srv, resolved) := apiRequest (server st) customer in
  {| server := srv;
     successCount := if resolved then S (successCount st) else successCount st;
     failCount := if resolved then failCount st else S (failCount st);
     posted := posted st ++ [customer] |}.

Definition importComplete (st : ImportState) : ProductsPage.Toast :=
  {| ProductsPage.title := "Import complete";
     ProductsPage.description :=
       showNat (successCount st) +:+ " customers imported successfully"
       +:+ (if Nat.ltb 0 (failCount st)
            then ", " +:+ showNat (failCount st) +:+ " failed"
            else EmptyString);
     ProductsPage.destructive := false |}.

Definition importErrors (errors : list string) : ProductsPage.Toast :=
  {| ProductsPage.title := "Import errors";
     ProductsPage.description := join ", " (take 3 errors);
     ProductsPage.destructive := true |}.

Definition handleFileChange (srv : Server) (file : option FileRead)
    : ImportState * option ProductsPage.Toast :=
  let idle := {| server := srv; successCount := 0; failCount := 0; posted := [] |} in
  match file with
  | None => (idle, None)
  | Some f =>
      let result := parseCSV customerColumns (WithTransform customerTransform) f in
      if Nat.ltb 0 (length (errors result)) then
        (idle, Some (importErrors (errors result)))
      else
        let st := foldl postOne idle (data result) in
        (st, Some (importComplete st))
  end.

End HandleFileChange.

(** A customer with the statistics the list shows. *)
Record CustomerWithStats := {
  customerId : string;
  customerName : string;
  customerPhone : string;
  customerEmail : string;
  totalPurchases : Q;
  totalSpent : Q
}.

Definition customerMatches (search : string) (customer : CustomerWithStats) : bool :=
  includes (toLowerCase (customerName customer)) (toLowerCase search)
  || includes (toLowerCase (customerEmail customer)) (toLowerCase search)
  || includes (customerPhone customer) search.

Definition filteredCustomers (customers : list CustomerWithStats)
    (search : string) : list CustomerWithStats :=
  filter (λ customer, customerMatches search customer = true) customers.

End CustomersPage.

(** ** The other insert schemas of [shared/schema-sqlite.ts] *)

Module SchemaEntities.

Import SchemaSqlite.

(** [z.number().int().min(0)] *)
Definition zNonNegativeInt (v : Json) : bool :=
  match v with
  | JNumber q => zNumberInt v && Qle_bool 0 q
  | _ => false
  end.

(** [schema.nullable()] *)
Definition nullable (schema : Json → bool) (v : Json) : bool :=
  match v with JNull => true | _ => schema v end.

(** [insertSupplierSchema]: the columns of [suppliers] but [id] and
    [createdAt]. *)
Definition insertSupplierSchema (v : Json) : bool :=
  match v with
  | JObject props =>
      required zString "name" props
      && required zString "phone" props
      && required zString "email" props
  | _ => false
  end.

Definition insertCustomerSchema (v : Json) : bool :=
  match v with
  | JObject props =>
      required zString "name" props
      && required zString "phone" props
      && required zString "email" props
  | _ => false
  end.

Definition insertSellerSchema (v : Json) : bool :=
  match v with
  | JObject props =>
      required zString "name" props
      && required zString "email" props
  | _ => false
  end.

(** [insertProductSchema]: the columns of [products] but [id] and
    [createdAt], with the two prices as strings, a non-negative integer
    quantity and an optional, nullable supplier. *)
Definition insertProductSchema (v : Json) : bool :=
  match v with
  | JObject props =>
      required zString "stockCode" props
      && required zString "name" props
      && required zString "category" props
      && required zString "buyingPrice" props
      && required zString "sellingPrice" props
      && required zNonNegativeInt "quantity" props
      && optional (nullable zString) "supplierId" props
  | _ => false
  end.

(** The object the product row transform builds, as a request body. *)
Definition productBody (p : ProductsPage.InsertProduct) : Json :=
  JObject [ ("stockCode", JString (ProductsPage.stockCode p));
            ("name", JString (ProductsPage.name p));
            ("category", JString (ProductsPage.category p));
            ("buyingPrice", JString (ProductsPage.buyingPrice p));
            ("sellingPrice", JString (ProductsPage.sellingPrice p));
            ("quantity", JNumber (inject_Z (ProductsPage.quantity p)));
            ("supplierId",
             match ProductsPage.supplierId p with
             | Some s => JString s
             | None => JNull
             end) ].

(** The object the customer row transform builds, as a request body. *)
Definition customerBody (c : CustomersPage.InsertCustomer) : Json :=
  JObject [ ("name", JString (CustomersPage.name c));
            ("phone", JString (CustomersPage.phone c));
            ("email", JString (CustomersPage.email c)) ].

End SchemaEntities.

(** ** The database selection of the second unnamed source file *)

Module Database.

Import Js JsText.

(** What [db] is bound to: a SQLite file or a Postgres pool. *)
Inductive Backend :=
| Sqlite (dbPath : string)
| Postgres (connectionString : string).

Definition databaseUrlMissing : string :=
  "DATABASE_URL must be set. Did you forget to provision a database?".

(** The module body, as a function of [process.env]. *)
Definition connect (env : gmap string string) : Outcome Backend :=
  let isElectron := bool_decide (env !! "ELECTRON_MODE" = Some "true") in
  match env !! "DATABASE_URL" with
  | None => throwError databaseUrlMissing
  | Some databaseUrl =>
      if negb (truthy databaseUrl) then throwError databaseUrlMissing
      else if isElectron && startsWith databaseUrl "sqlite:" then
        Returned (Sqlite (replaceFirst databaseUrl "sqlite:" EmptyString))
      else Returned (Postgres databaseUrl)
  end.

End Database.

(** ** [electron/main.js] *)

Module Electron.

Import Js.

(** The arguments of [spawn]. *)
Record Spawn := {
  command : string;
  args : list string;
  env : gmap string string;
  cwd : string
}.

Section StartServer.

(** [path.join], [__dirname], [process.resourcesPath] and
    [app.getPath('userData')]. *)
Variable pathJoin : list string → string.
Variable dirname resourcesPath userData : string.

Definition startServer (processEnv : gmap string string) : Spawn :=
  let isDev := bool_decide (processEnv !! "NODE_ENV" = Some "development") in
  let serverPath :=
    if isDev then pathJoin [dirname; "../server/index.ts"]
    else pathJoin [resourcesPath; "dist/index.js"] in
  {| command := if isDev then "tsx" else "node";
     args := [serverPath];
     env :=
       <["PORT" := "5000"]>
         (<["DATABASE_URL" := "sqlite:" +:+ pathJoin [userData; "saga-inventory.db"]]>
            (<["ELECTRON_MODE" := "true"]>
               (<["NODE_ENV" := "production"]> processEnv)));
     cwd := if isDev then pathJoin [dirname; ".."] else resourcesPath |}.

End StartServer.

End Electron.

(** ** Reading the validators *)

Module ValidatorView.

Import Js JsText ImportLib.

(** A non-empty run of characters other than white space and the at
    sign. *)
Definition emailPart (s : string) : Prop :=
  s ≠ EmptyString ∧ allChars emailChar s = true.

(** [local@domain.tld] with three such runs. *)
Definition emailShape (e : string) : Prop :=
  ∃ l d t, e = l +:+ String "@"%char (d +:+ String "."%char t)
           ∧ emailPart l ∧ emailPart d ∧ emailPart t.

(** The string begins with a decimal digit. *)
Definition startsWithDigit (s : string) : bool :=
  match s with
  | String c _ => isDigit c
  | EmptyString => false
  end.

End ValidatorView.

(** * Properties *)

(** ** The tokenizer *)

Module TokenizerFacts.

Import Js ImportLib CsvDialect Scenarios.

Lemma append_nil_l (s : string) : EmptyString +:+ s = s.
Proof. reflexivity. Qed.

Lemma append_cons (c : ascii) (s t : string) :
  String c s +:+ t = String c (s +:+ t).
Proof. reflexivity. Qed.

Lemma append_empty_r (s : string) : s +:+ EmptyString = s.
Proof.
  induction s as [|c s IH]; [done |].
  by rewrite append_cons, IH.
Qed.

Lemma append_snoc (cur : string) (c : ascii) (s : string) :
  (cur +:+ String c EmptyString) +:+ s = cur +:+ String c s.
Proof.
  induction cur as [|d cur IH]; [done |].
  by rewrite !append_cons, IH.
Qed.

Lemma charEq_true (a b : ascii) : charEq a b = true ↔ a = b.
Proof. unfold charEq. apply Ascii.eqb_eq. Qed.

(** Reading an escaped field up to and including its closing quote leaves
    the field itself, unescaped, in [current]. *)
Lemma loop_quoted_field (s rest cur : string) (result : list string) :
  startsWithQuote rest = false →
  parseCSVLine_loop (escapeQuotes s +:+ String DQUOTE rest) cur true result
  = parseCSVLine_loop rest (cur +:+ s) false result.
Proof.
  intros Hrest. revert cur.
  induction s as [|c s IH]; intros cur.
  - rewrite append_empty_r. cbn [escapeQuotes]. rewrite append_nil_l.
    cbn [parseCSVLine_loop]. change (charEq DQUOTE DQUOTE) with true.
    destruct rest as [|d rest]; [done |].
    cbn [startsWithQuote] in Hrest. by rewrite Hrest.
  - cbn [escapeQuotes]. destruct (charEq c DQUOTE) eqn:Hc.
    + apply charEq_true in Hc as ->.
      rewrite !append_cons. cbn [parseCSVLine_loop].
      change (charEq DQUOTE DQUOTE) with true. cbv iota.
      rewrite IH. by rewrite append_snoc.
    + rewrite append_cons. cbn [parseCSVLine_loop]. rewrite Hc.
      rewrite andb_false_r. rewrite IH. by rewrite append_snoc.
Qed.

Lemma quotedLine_cons (f g : string) (fs : list string) :
  quotedLine (f :: g :: fs) = quoteField f +:+ "," +:+ quotedLine (g :: fs).
Proof. reflexivity. Qed.

(** A line of quoted fields tokenizes to its fields, each trimmed. *)
Lemma loop_quoted_line (f : string) (fs : list string) (result : list string) :
  parseCSVLine_loop (quotedLine (f :: fs)) EmptyString false result
  = result ++ map trim (f :: fs).
Proof.
  revert f result. induction fs as [|g fs IH]; intros f result.
  - unfold quotedLine. cbn [map join]. unfold quoteField.
    cbn [parseCSVLine_loop]. change (charEq DQUOTE DQUOTE) with true.
    cbn [negb]. rewrite loop_quoted_field by done.
    by rewrite append_nil_l.
  - rewrite quotedLine_cons. unfold quoteField at 1.
    rewrite append_cons, append_snoc.
    change ("," +:+ quotedLine (g :: fs)) with (String COMMA (quotedLine (g :: fs))).
    cbn [parseCSVLine_loop]. change (charEq DQUOTE DQUOTE) with true.
    cbn [negb]. rewrite loop_quoted_field by done.
    cbn [parseCSVLine_loop]. change (charEq COMMA DQUOTE) with false.
    change (charEq COMMA COMMA && negb false) with true. cbv iota.
    rewrite IH, append_nil_l. cbn [map]. by rewrite <- app_assoc.
Qed.

(** C2. The tokenizer honours CSV quoting. While the loop is inside a
    quoted field, a comma is appended to the field and ends nothing, and two
    double quotes in a row add one literal double quote; hence a line of
    quoted fields, each with its own double quotes doubled, tokenizes to
    exactly those fields (trimmed), whatever commas and quotes they hold.
    The line [acmeLine] (a quoted [Acme, Inc], then 100 and 5) yields the
    three fields [Acme, Inc], [100], [5], and the first field of
    [sheSaidLine] (a quoted [She said], then a doubled-quoted [hi]) is
    [She said] followed by [hi] between single double quotes. *)
Theorem parseCSVLine_honours_quoting :
  (∀ (rest cur : string) (result : list string),
      parseCSVLine_loop (String COMMA rest) cur true result
      = parseCSVLine_loop rest (cur +:+ String COMMA EmptyString) true result)
  ∧ (∀ (rest cur : string) (result : list string),
      parseCSVLine_loop (String DQUOTE (String DQUOTE rest)) cur true result
      = parseCSVLine_loop rest (cur +:+ String DQUOTE EmptyString) true result)
  ∧ (∀ (f : string) (fs : list string),
      parseCSVLine (quotedLine (f :: fs)) = map trim (f :: fs))
  ∧ parseCSVLine acmeLine = ["Acme, Inc"; "100"; "5"]
  ∧ head (parseCSVLine sheSaidLine) = Some sheSaidHi.
Proof.
  repeat split.
  - intros f fs. unfold parseCSVLine. by rewrite loop_quoted_line.
Qed.

End TokenizerFacts.

(** ** [parseCSV] *)

Module ParseFacts.

Import Js ImportLib ParseView Scenarios ProductsPage.

Section Generic.

Context {T : Type}.
Variable columnMapping : list ColumnMapping.
Variable transform : Transform T.

Lemma nonBlankLines_nonBlank (text : string) :
  Forall nonBlank (nonBlankLines text).
Proof.
  apply Forall_forall. intros l Hl.
  unfold nonBlankLines in Hl. by apply list_elem_of_filter in Hl as [? _].
Qed.

(** The first [forEach] pushes one message per entry that is not found, in
    the order of the mapping, and nothing else. *)
Lemma resolveColumns_from (headers : list string) (mapping : list ColumnMapping)
    (st : gmap string nat * list string) :
  (foldl (resolveColumn headers) st mapping).2
  = st.2 ++ map (λ m, missingColumn (csvHeader m)) (missingEntries headers mapping).
Proof.
  revert st. induction mapping as [|m mapping IH]; intros st.
  - cbn. by rewrite app_nil_r.
  - cbn [foldl]. rewrite IH. unfold missingEntries. rewrite filter_cons.
    unfold resolveColumn.
    destruct (findIndex (headerMatches (csvHeader m)) headers) as [index|] eqn:Hfind.
    + rewrite decide_False by done. done.
    + rewrite decide_True by done. cbn [snd map]. by rewrite <- app_assoc.
Qed.

Lemma resolveColumns_errors (headers : list string) :
  (resolveColumns headers columnMapping).2
  = map (λ m, missingColumn (csvHeader m)) (missingEntries headers columnMapping).
Proof. unfold resolveColumns. by rewrite resolveColumns_from. Qed.

(** The loop over rows that are all non-blank: records and errors, each in
    row order, the row at offset [j] reported under number [i + j + 1]. *)
Lemma parseRows_spec (indices : gmap string nat) (rest : list string) :
  Forall nonBlank rest →
  ∀ (i : nat) (data0 : list T) (errors0 : list string),
    parseRows columnMapping transform indices i rest data0 errors0
    = {| data := data0 ++ omap (rowRecord columnMapping transform indices) rest;
         errors := errors0 ++
           omap id (imap (λ j raw,
             rowFailure columnMapping transform indices (i + j + 1) raw) rest) |}.
Proof.
  induction 1 as [|raw rest Hraw _ IH]; intros i data0 errors0.
  - cbn. by rewrite !app_nil_r.
  - cbn [parseRows]. unfold nonBlank in Hraw. rewrite Hraw. cbn [negb].
    rewrite imap_cons. cbn [omap list_omap].
    unfold rowRecord at 1, rowFailure at 1, rowOutcome.
    assert (Hshift : ∀ F : nat → string → option string,
      imap (λ j raw', F (S i + j + 1) raw') rest
      = imap ((λ j raw', F (i + j + 1) raw') ∘ S) rest).
    { intros F. apply imap_ext. intros j raw' _. cbn.
      by replace (S (i + j + 1)) with (i + S j + 1) by lia. }
    destruct (applyTransform transform _) as [t|e]; rewrite IH, Hshift; cbn [id].
    + by rewrite <- app_assoc.
    + rewrite <- app_assoc. unfold rowError.
      by replace (i + 0 + 1) with (i + 1) by lia.
Qed.


(** [parseCSV] once the header row resolves every column. *)
Lemma parseCSV_resolved (text headerLine : string) (rows : list string) :
  nonBlankLines text = headerLine :: rows →
  missingEntries (parseCSVLine headerLine) columnMapping = [] →
  parseCSV columnMapping transform (Loaded text)
  = parseRows columnMapping transform
      (resolveColumns (parseCSVLine headerLine) columnMapping).1 1 rows [] [].
Proof.
  intros Hlines Hnone. cbn [parseCSV]. unfold parseCSV_onload. rewrite Hlines.
  pose proof (resolveColumns_errors (parseCSVLine headerLine)) as Herr.
  destruct (resolveColumns (parseCSVLine headerLine) columnMapping)
    as [indices errs] eqn:Hres.
  cbn [snd fst] in *. rewrite Hnone in Herr. cbn in Herr. subst errs. done.
Qed.

Lemma rows_nonBlank (text headerLine : string) (rows : list string) :
  nonBlankLines text = headerLine :: rows → Forall nonBlank rows.
Proof.
  intros Hlines. pose proof (nonBlankLines_nonBlank text) as Hall.
  rewrite Hlines in Hall. by apply Forall_cons in Hall as [_ ?].
Qed.

Lemma findIndex_None {A} (p : A → bool) (xs : list A) :
  findIndex p xs = None ↔ ∀ x, x ∈ xs → p x = false.
Proof.
  induction xs as [|x xs IH]; cbn.
  - split; [intros _ y Hy; by apply elem_of_nil in Hy | done].
  - destruct (p x) eqn:Hpx.
    + split; [done |]. intros Hall.
      specialize (Hall x (list_elem_of_here _ _)). congruence.
    + destruct (findIndex p xs) as [k|]; cbn.
      * split; [done |]. intros Hall.
        assert (Some k = None) as Hn; [| done].
        apply IH. intros y Hy. apply Hall. by right.
      * split; [| done]. intros _ y Hy.
        apply elem_of_cons in Hy as [-> | Hy]; [done |]. by apply IH.
Qed.

(** An entry is missing exactly when no header cell equals its header
    after lower-casing and trimming both. *)
Lemma missingEntries_spec (headers : list string) (m : ColumnMapping) :
  m ∈ missingEntries headers columnMapping ↔
  m ∈ columnMapping ∧
  ∀ h, h ∈ headers → trim (toLowerCase h) ≠ trim (toLowerCase (csvHeader m)).
Proof.
  unfold missingEntries. rewrite list_elem_of_filter, findIndex_None.
  split.
  - intros [Hnone Hin]. split; [done |]. intros h Hh.
    specialize (Hnone h Hh). unfold headerMatches in Hnone.
    by apply String.eqb_neq in Hnone.
  - intros [Hin Hnone]. split; [| done]. intros h Hh.
    unfold headerMatches. apply String.eqb_neq. by apply Hnone.
Qed.

(** C1. When the header row lacks a declared header (compared after
    lower-casing and trimming), [parseCSV] returns no record and exactly one
    error per missing mapping entry, in mapping order, each reading
    [Required column], the declared header between double quotes, and
    [not found in CSV]. The result mentions neither the data rows nor the
    transform: no row is parsed. *)
Theorem parseCSV_missing_header (text headerLine : string) (rows : list string) :
  nonBlankLines text = headerLine :: rows →
  missingEntries (parseCSVLine headerLine) columnMapping ≠ [] →
  parseCSV columnMapping transform (Loaded text)
  = {| data := [];
       errors := map (λ m, "Required column " +:+ String DQUOTE (csvHeader m)
                             +:+ String DQUOTE " not found in CSV")
                   (missingEntries (parseCSVLine headerLine) columnMapping) |}
  ∧ ∀ m, m ∈ missingEntries (parseCSVLine headerLine) columnMapping ↔
      m ∈ columnMapping ∧
      ∀ h, h ∈ parseCSVLine headerLine →
        trim (toLowerCase h) ≠ trim (toLowerCase (csvHeader m)).
Proof.
  intros Hlines Hsome. split; [| apply missingEntries_spec].
  cbn [parseCSV]. unfold parseCSV_onload. rewrite Hlines.
  pose proof (resolveColumns_errors (parseCSVLine headerLine)) as Herr.
  destruct (resolveColumns (parseCSVLine headerLine) columnMapping)
    as [indices errs] eqn:Hres.
  cbn [snd] in Herr. subst errs.
  destruct (missingEntries (parseCSVLine headerLine) columnMapping); done.
Qed.

(** C3 (amended). Once the header row resolves every column, the records
    are the results of the rows whose transform returned, in row order, and
    the errors are, in row order, ["Error on row N: message"] for the rows
    whose transform threw, where N - 1 is the position of the row among the
    non-blank lines of the text (the header is row 1); no row stops the
    ones after it. *)
Theorem parseCSV_rows_in_order (text headerLine : string) (rows : list string) :
  nonBlankLines text = headerLine :: rows →
  missingEntries (parseCSVLine headerLine) columnMapping = [] →
  let indices := (resolveColumns (parseCSVLine headerLine) columnMapping).1 in
  let r := parseCSV columnMapping transform (Loaded text) in
  data r = omap (rowRecord columnMapping transform indices) rows
  ∧ errors r = omap id (imap (λ j raw,
      rowFailure columnMapping transform indices (j + 2) raw) rows).
Proof.
  intros Hlines Hnone indices r. subst r.
  rewrite (parseCSV_resolved _ _ _ Hlines Hnone).
  rewrite parseRows_spec by eauto using rows_nonBlank.
  cbn [data errors app]. split; [done |].
  f_equal. apply imap_ext. intros j raw _. cbn.
  by replace (S (j + 1)) with (j + 2) by lia.
Qed.


Lemma cellOrEmpty_short (values : list string) (index : nat) :
  length values ≤ index → cellOrEmpty values index = EmptyString.
Proof.
  intros Hshort. unfold cellOrEmpty. by rewrite lookup_ge_None_2.
Qed.

(** Entries under other headers leave a property of the row untouched. *)
Lemma fillCell_others (indices : gmap string nat) (values : list string)
    (h : string) (post : list ColumnMapping) (row : RowData) :
  h ∉ map csvHeader post →
  foldl (fillCell indices values) row post !! h = row !! h.
Proof.
  revert row. induction post as [|m' post IH]; intros row Hnot; [done |].
  cbn [foldl]. cbn [map] in Hnot. apply not_elem_of_cons in Hnot as [Hne Hnot].
  rewrite IH by done. unfold fillCell.
  destruct (indices !! field m'); [| done].
  unfold setProperty. destruct (String.eqb _ _); [done |].
  by rewrite lookup_insert_ne.
Qed.

Lemma omap_imap_none {A} (f : nat → A → option string) (l : list A) :
  (∀ j x, f j x = None) → omap id (imap f l) = [].
Proof.
  revert f. induction l as [|x l IH]; intros f Hf; [done |].
  rewrite imap_cons. cbn. rewrite Hf. cbn. apply IH. intros j y. apply Hf.
Qed.

End Generic.

(** C10 (amended). Once the header row resolves every column, the
    transform is called, for each data row, on the row object built from that
    row's cells (without a transform the row object itself is the record),
    and the records and errors are what it returns and throws.
    In that row object a column whose index the row does not reach reads as
    the empty string under its header, provided the header is not declared
    again further on in the mapping (a later entry overwrites it) and is not
    [__proto__]; and a parse whose transform never throws reports no error
    and one record per row, however short the rows are. *)
Theorem short_row_reads_empty {T : Type} (columnMapping : list ColumnMapping)
    (transform : Transform T) (text headerLine : string) (rows : list string) :
  nonBlankLines text = headerLine :: rows →
  missingEntries (parseCSVLine headerLine) columnMapping = [] →
  let indices := (resolveColumns (parseCSVLine headerLine) columnMapping).1 in
  let rowOf raw := buildRow indices columnMapping (parseCSVLine (trim raw)) in
  let call row :=
    match transform with
    | WithTransform f => f row
    | NoTransform asT => Returned (asT row)
    end in
  let r := parseCSV columnMapping transform (Loaded text) in
  data r = omap (λ raw, match call (rowOf raw) with
                        | Returned t => Some t
                        | Threw _ => None
                        end) rows
  ∧ errors r = omap id (imap (λ j raw,
      match call (rowOf raw) with
      | Returned _ => None
      | Threw e => Some ("Error on row " +:+ showNat (j + 2) +:+ ": "
                           +:+ thrownMessage e)
      end) rows)
  ∧ (∀ raw pre m post index,
       raw ∈ rows →
       columnMapping = pre ++ m :: post →
       csvHeader m ∉ map csvHeader post →
       csvHeader m ≠ "__proto__" →
       indices !! field m = Some index →
       length (parseCSVLine (trim raw)) ≤ index →
       rowOf raw !! csvHeader m = Some EmptyString)
  ∧ ((∀ row, ∃ t, call row = Returned t) →
     errors r = [] ∧ length (data r) = length rows).
Proof.
  intros Hlines Hnone indices rowOf call r. subst r.
  rewrite (parseCSV_resolved _ _ _ _ _ Hlines Hnone).
  rewrite parseRows_spec by eauto using rows_nonBlank.
  cbn [data errors app]. fold indices.
  assert (Hdata : omap (rowRecord columnMapping transform indices) rows
    = omap (λ raw, match call (rowOf raw) with
                   | Returned t => Some t
                   | Threw _ => None
                   end) rows) by (subst call; by destruct transform).
  assert (Herrors : omap id (imap (λ j raw, rowFailure columnMapping
      transform indices (1 + j + 1) raw) rows)
    = omap id (imap (λ j raw,
        match call (rowOf raw) with
        | Returned _ => None
        | Threw e => Some ("Error on row " +:+ showNat (j + 2) +:+ ": "
                             +:+ thrownMessage e)
        end) rows)).
  { f_equal. apply imap_ext. intros j raw _. cbn.
    replace (S (j + 1)) with (j + 2) by lia.
    subst call. by destruct transform. }
  rewrite Hdata, Herrors. split; [done |]. split; [done |]. split.
  - intros raw pre m post index _ Hmap Hlast Hproto Hidx Hshort.
    subst rowOf. cbn beta. unfold buildRow. rewrite Hmap, foldl_app. cbn [foldl].
    rewrite fillCell_others by done.
    unfold fillCell at 1. rewrite Hidx. unfold setProperty.
    apply String.eqb_neq in Hproto. rewrite Hproto.
    rewrite lookup_insert_eq. by rewrite cellOrEmpty_short.
  - intros Htotal. split.
    + apply omap_imap_none. intros j raw. by destruct (Htotal (rowOf raw)) as [t ->].
    + assert (Hlen : ∀ l : list string,
        length (omap (λ raw, match call (rowOf raw) with
                             | Returned t => Some t
                             | Threw _ => None
                             end) l) = length l).
      { induction l as [|raw l IH]; [done |].
        cbn [omap list_omap]. destruct (Htotal (rowOf raw)) as [t ->].
        cbn [length]. by f_equal. }
      apply Hlen.
Qed.

(** The declared header [Qty] is absent from the header row of
    [stockTextNoQty]. *)
Lemma parseCSV_missing_header_witness :
  parseCSV stockColumns (WithTransform stockTransform) (Loaded stockTextNoQty)
  = {| data := [];
       errors := ["Required column "
                  +:+ String DQUOTE ("Qty" +:+ String DQUOTE " not found in CSV")] |}.
Proof.
  apply (parseCSV_missing_header stockColumns (WithTransform stockTransform)
           stockTextNoQty "name,note" ["bolt,4"]).
  - reflexivity.
  - vm_compute. discriminate.
Defined.

(** C3 as stated fails: with a blank second line, the failing row is the
    third line of the text and is reported as row 2. *)
Lemma row_number_is_not_text_line :
  ¬ reportsTextLineNumbers stockColumns (WithTransform stockTransform)
      stockTextWithGap.
Proof.
  intros Hclaim.
  specialize (Hclaim "Name,Qty" ["nut,many"] 2 "nut,many"
    "Error on row 3: Qty must be a valid integer").
  assert (Hin : "Error on row 3: Qty must be a valid integer"
      ∈ errors (parseCSV stockColumns (WithTransform stockTransform)
                  (Loaded stockTextWithGap))).
  { apply Hclaim; [reflexivity | reflexivity | apply list_elem_of_here
                  | vm_compute; reflexivity]. }
  vm_compute in Hin. apply list_elem_of_singleton in Hin. discriminate.
Qed.

Lemma parseCSV_rows_in_order_witness :
  data (parseCSV stockColumns (WithTransform stockTransform) (Loaded stockText))
  = [("bolt", 4%Z)]
  ∧ errors (parseCSV stockColumns (WithTransform stockTransform) (Loaded stockText))
  = ["Error on row 3: Qty must be a valid integer";
     "Error on row 4: Name is required"].
Proof.
  apply (parseCSV_rows_in_order stockColumns (WithTransform stockTransform)
           stockText "name, QTY ,note" ["bolt,4"; "nut,many"; " ,3"]).
  - reflexivity.
  - reflexivity.
Defined.


(** C10 as stated fails: in [overwritingColumns] the field [y] resolves
    to the third column (index 2), the data row has one cell, and yet the
    header [A] of the first entry for [y] reads [1], written by the later
    entry under the same header. *)
Lemma short_cell_can_be_overwritten :
  ¬ shortCellsReadEmpty overwritingColumns oneCellText.
Proof.
  intros Hclaim.
  specialize (Hclaim "A,C,B" ["1"] "1" {| csvHeader := "A"; field := "y" |} 2
    eq_refl (list_elem_of_here _ _) (list_elem_of_here _ _) eq_refl).
  assert (Hshort : length (parseCSVLine (trim "1")) < 2) by (vm_compute; lia).
  specialize (Hclaim Hshort). vm_compute in Hclaim. discriminate.
Qed.

(** The row [bolt] has one cell; the quantity column sits at index 1. *)
Lemma short_row_reads_empty_witness :
  data (parseCSV stockColumns (WithTransform stockTransform)
          (Loaded (line "name,qty" "bolt"))) = []
  ∧ errors (parseCSV stockColumns (WithTransform stockTransform)
              (Loaded (line "name,qty" "bolt")))
    = ["Error on row 2: Qty must be a valid integer"]
  ∧ buildRow (resolveColumns ["name"; "qty"] stockColumns).1 stockColumns ["bolt"]
      !! "Qty" = Some EmptyString.
Proof.
  destruct (short_row_reads_empty stockColumns (WithTransform stockTransform)
              (line "name,qty" "bolt") "name,qty" ["bolt"] eq_refl eq_refl)
    as (Hdata & Herrors & Hshort & _).
  split; [exact Hdata |]. split; [exact Herrors |].
  apply (Hshort "bolt" [ {| csvHeader := "Name"; field := "name" |} ]
           {| csvHeader := "Qty"; field := "qty" |} [] 1).
  - apply list_elem_of_here.
  - reflexivity.
  - cbn. apply not_elem_of_nil.
  - discriminate.
  - reflexivity.
  - vm_compute. lia.
Defined.

End ParseFacts.

(** ** The bulk import *)

Module ImportFacts.

Import Js ImportLib ProductsPage Scenarios.

Section Loop.

Context {Server : Type}.
Variable apiRequest : Server → InsertProduct → Server * bool.

(** The loop posts every record once, in order, and counts each request
    as a success or as a failure. *)
Lemma importLoop_spec (records : list InsertProduct) (st : ImportState) :
  let st' := foldl (postOne apiRequest) st records in
  posted st' = posted st ++ records
  ∧ successCount st' + failCount st'
    = successCount st + failCount st + length records.
Proof.
  revert st. induction records as [|p records IH]; intros st; cbn zeta.
  - cbn. rewrite app_nil_r. split; [done | lia].
  - cbn [foldl]. destruct (IH (postOne apiRequest st p)) as [Hposted Hcount].
    rewrite Hposted, Hcount. unfold postOne.
    destruct (apiRequest (server st) p) as [srv resolved].
    cbn [posted successCount failCount length].
    rewrite <- app_assoc. split; [done |]. destruct resolved; lia.
Qed.

(** The loop sends the records to the server one after the other and
    counts the requests that resolved apart from those that were rejected. *)
Lemma importLoop_run (records : list InsertProduct) (st : ImportState) :
  foldl (postOne apiRequest) st records
  = {| server := (serverRun apiRequest (server st) records).1;
       successCount := successCount st
         + length (filter (λ b, b = true) (serverRun apiRequest (server st) records).2);
       failCount := failCount st
         + length (filter (λ b, b = false) (serverRun apiRequest (server st) records).2);
       posted := posted st ++ records |}.
Proof.
  revert st. induction records as [|p records IH]; intros st.
  - destruct st. cbn. by rewrite !Nat.add_0_r, app_nil_r.
  - cbn [foldl serverRun]. rewrite IH. unfold postOne.
    destruct (apiRequest (server st) p) as [srv resolved]. cbn [server].
    destruct (serverRun apiRequest srv records) as [final answers].
    cbn [fst snd successCount failCount posted].
    rewrite <- app_assoc. destruct resolved.
    + rewrite filter_cons_True, filter_cons_False by done. cbn [length app].
      f_equal; lia.
    + rewrite filter_cons_False, filter_cons_True by done. cbn [length app].
      f_equal; lia.
Qed.

(** C5 (amended). The import is all or nothing on the parse errors. If the
    parse reports any error, from the header or from a single row, no create
    request is issued, the server is left as it was, and the toast [Import
    errors] shows the first three errors joined by a comma and a blank. Only
    an error-free parse is followed by one create request per record, in
    order, each sent to the server as the previous one left it; the requests
    that resolved and those that were rejected are counted apart, and the
    toast [Import complete] gives the first count and, when it is not zero,
    the second. *)
Theorem handleFileChange_all_or_nothing (srv : Server) (file : FileRead) :
  let r := parseCSV productColumns (WithTransform productTransform) file in
  let out := handleFileChange apiRequest srv (Some file) in
  (errors r ≠ [] →
     out = ({| server := srv; successCount := 0; failCount := 0; posted := [] |},
            Some {| title := "Import errors";
                    description := join ", " (take 3 (errors r));
                    destructive := true |}))
  ∧ (errors r = [] →
     let run := serverRun apiRequest srv (data r) in
     let imported := length (filter (λ b, b = true) run.2) in
     let failed := length (filter (λ b, b = false) run.2) in
     out = ({| server := run.1; successCount := imported; failCount := failed;
               posted := data r |},
            Some {| title := "Import complete";
                    description :=
                      showNat imported +:+ " products imported successfully"
                      +:+ (if Nat.ltb 0 failed
                           then ", " +:+ showNat failed +:+ " failed"
                           else EmptyString);
                    destructive := false |})).
Proof.
  intros r out. subst out. unfold handleFileChange. fold r. split.
  - intros Hsome. by destruct (errors r).
  - intros Hnone. cbv zeta. rewrite Hnone.
    cbn [length Nat.ltb Nat.leb]. rewrite importLoop_run.
    cbn [server successCount failCount posted app Nat.add].
    unfold importComplete. cbn [successCount failCount]. done.
Qed.

End Loop.

(** C5 as stated fails: of ten rows, nine parse and one does not, and not
    one of the nine is posted. *)
Lemma bulk_import_is_not_partial :
  length (data (parseCSV productColumns (WithTransform productTransform)
                  (Loaded tenProducts))) = 9
  ∧ errors (parseCSV productColumns (WithTransform productTransform)
              (Loaded tenProducts))
    = ["Error on row 5: Buying Price must be a valid number"]
  ∧ posted (handleFileChange acceptAll 0 (Some (Loaded tenProducts))).1 = []
  ∧ ¬ importsEveryRecord acceptAll 0 (Loaded tenProducts).
Proof.
  split; [reflexivity |]. split; [reflexivity |]. split; [reflexivity |].
  unfold importsEveryRecord. vm_compute. discriminate.
Qed.

Lemma handleFileChange_all_or_nothing_witness :
  handleFileChange acceptAll 0 (Some (Loaded tenProducts))
  = ({| server := 0; successCount := 0; failCount := 0; posted := [] |},
     Some {| title := "Import errors";
             description := "Error on row 5: Buying Price must be a valid number";
             destructive := true |})
  ∧ (handleFileChange refuseEmptyStock 0 (Some (Loaded threeProducts))).2
    = Some {| title := "Import complete";
              description := "2 products imported successfully, 1 failed";
              destructive := false |}.
Proof.
  split.
  - destruct (handleFileChange_all_or_nothing acceptAll 0 (Loaded tenProducts))
      as [Herr _].
    rewrite Herr; [reflexivity |]. vm_compute. discriminate.
  - destruct (handleFileChange_all_or_nothing refuseEmptyStock 0 (Loaded threeProducts))
      as [_ Hok].
    rewrite Hok; reflexivity.
Defined.

End ImportFacts.

(** ** Sales *)

Module SaleFacts.

Import SchemaSqlite SaleWriter SaleScenarios.

(** C6 as stated fails: the schema accepts a body whose [items] is the
    empty array. *)
Lemma sale_schema_accepts_no_items :
  insertSaleSchema zNumberInt emptySale = true.
Proof. reflexivity. Qed.

(** C6 (amended). The schema puts no lower bound on [items]: a body with
    well-typed scalar fields is accepted exactly when each of its items
    passes the item schema, so with no item at all it is accepted. The
    guard against an empty cart is [recordSale]'s: on an empty item list it
    fails with the empty-cart error and returns the store untouched. *)
Theorem empty_cart_rejected_by_writer_only :
  (∀ (integerColumn : Json → bool)
     (customerId sellerId subtotal discount total paymentMethod : string)
     (items : list Json),
      insertSaleSchema integerColumn
        (saleBody customerId sellerId subtotal discount total paymentMethod items)
      = forallb (insertSaleItemSchema integerColumn) items)
  ∧ (∀ (integerColumn : Json → bool)
       (customerId sellerId subtotal discount total paymentMethod : string),
      insertSaleSchema integerColumn
        (saleBody customerId sellerId subtotal discount total paymentMethod [])
      = true)
  ∧ (∀ (st : Store) (customerId sellerId : string) (discount : Q)
       (discountType : DiscountType) (paymentMethod : string),
      recordSale st
        {| customerId := customerId; sellerId := sellerId; items := [];
           discount := discount; discountType := discountType;
           paymentMethod := paymentMethod |}
      = (inl EmptyCartError, st)).
Proof.
  split; [| split]; done.
Qed.

(** Resolution succeeds when every line names a stored product, and pairs
    each line with that product. *)
Lemma resolveLines_all (ps : gmap string Product) (lines : list SaleLine) :
  (∀ l, l ∈ lines → is_Some (ps !! productId l)) →
  ∃ resolved,
    resolveLines ps lines = inr resolved
    ∧ ∀ l p, (l, p) ∈ resolved ↔ l ∈ lines ∧ ps !! productId l = Some p.
Proof.
  induction lines as [|l0 lines IH]; intros Hall.
  - exists []. split; [done |]. intros l p. split.
    + intros H. by apply elem_of_nil in H.
    + intros [H _]. by apply elem_of_nil in H.
  - destruct IH as (resolved & Hres & Hmem).
    { intros l Hl. apply Hall. by right. }
    destruct (Hall l0 (list_elem_of_here _ _)) as [p0 Hp0].
    exists ((l0, p0) :: resolved). split.
    + cbn [resolveLines]. by rewrite Hp0, Hres.
    + intros l p. rewrite !elem_of_cons, Hmem. split.
      * intros [[= -> ->] | [Hl Hp]]; [by split; [left |] | by split; [right |]].
      * intros [[-> | Hl] Hp]; [left; congruence | by right].
Qed.

Lemma elem_of_offendingCodes (resolved : list (SaleLine * Product)) (c : string) :
  c ∈ offendingCodes resolved ↔
  ∃ l p, (l, p) ∈ resolved ∧ (quantity p < lineQuantity l)%Z ∧ c = stockCode p.
Proof.
  unfold offendingCodes. change (map ?f ?l) with (f <$> l).
  rewrite list_elem_of_fmap. split.
  - intros ([l p] & -> & Hin). apply list_elem_of_filter in Hin as [Hshort Hin].
    exists l, p. unfold shortOfStock in Hshort. cbn in *.
    apply Z.ltb_lt in Hshort. split; [done |]. split; [lia | done].
  - intros (l & p & Hin & Hlt & ->). exists (l, p). split; [done |].
    apply list_elem_of_filter. split; [| done].
    unfold shortOfStock. cbn. apply Z.ltb_lt. lia.
Qed.

(** C7 as stated fails on the writer of section 4.4, which resolves every
    line before it checks any stock: a request with a short line and a line
    on a product the store does not have fails with the product-not-found
    error. *)
Lemma short_line_with_unknown_product :
  recordSale shelf mixedOrder = (inl (ProductNotFoundError "Q"), shelf)
  ∧ ¬ shortLineIsInsufficientStock shelf mixedOrder.
Proof.
  split; [reflexivity |]. intros Hclaim.
  destruct (Hclaim fiveWidgets widget (list_elem_of_here _ _) eq_refl eq_refl)
    as [codes Hcodes].
  discriminate Hcodes.
Qed.

(** C7 (amended). When every line names a stored product and some line
    asks for more than its product has in stock, [recordSale] fails with the
    insufficient-stock error, the codes it names are exactly the stock codes
    of the short lines, and the store, every quantity included, is returned
    as it was. *)
Theorem recordSale_insufficient_stock (st : Store) (req : SaleRequest)
    (l : SaleLine) (p : Product) :
  l ∈ items req →
  products st !! productId l = Some p →
  (quantity p < lineQuantity l)%Z →
  (∀ l', l' ∈ items req → is_Some (products st !! productId l')) →
  ∃ codes,
    recordSale st req = (inl (InsufficientStockError codes), st)
    ∧ stockCode p ∈ codes
    ∧ ∀ c, c ∈ codes ↔
        ∃ l' p', l' ∈ items req ∧ products st !! productId l' = Some p'
                 ∧ (quantity p' < lineQuantity l')%Z ∧ c = stockCode p'.
Proof.
  intros Hl Hp Hshort Hall.
  destruct (resolveLines_all (products st) (items req) Hall)
    as (resolved & Hres & Hmem).
  assert (Hcodes : ∀ c, c ∈ offendingCodes resolved ↔
      ∃ l' p', l' ∈ items req ∧ products st !! productId l' = Some p'
               ∧ (quantity p' < lineQuantity l')%Z ∧ c = stockCode p').
  { intros c. rewrite elem_of_offendingCodes. split.
    - intros (l' & p' & Hin & Hlt & ->). apply Hmem in Hin as [? ?].
      by exists l', p'.
    - intros (l' & p' & Hin & Hp' & Hlt & ->). exists l', p'.
      split; [by apply Hmem |]. done. }
  assert (Hp_in : stockCode p ∈ offendingCodes resolved).
  { apply Hcodes. by exists l, p. }
  exists (offendingCodes resolved). split; [| by split].
  unfold recordSale. destruct (items req) as [|l0 ls] eqn:Hitems.
  { by apply elem_of_nil in Hl. }
  rewrite Hres. destruct (offendingCodes resolved) as [|c cs]; [| done].
  by apply elem_of_nil in Hp_in.
Qed.

Lemma recordSale_insufficient_stock_witness :
  ∃ codes,
    recordSale shelf order = (inl (InsufficientStockError codes), shelf)
    ∧ stockCode widget ∈ codes
    ∧ ∀ c, c ∈ codes ↔
        ∃ l' p', l' ∈ items order ∧ products shelf !! productId l' = Some p'
                 ∧ (quantity p' < lineQuantity l')%Z ∧ c = stockCode p'.
Proof.
  apply (recordSale_insufficient_stock shelf order fiveWidgets widget).
  - apply list_elem_of_here.
  - reflexivity.
  - reflexivity.
  - intros l' Hl'. apply list_elem_of_singleton in Hl' as ->.
    exists widget. reflexivity.
Defined.

End SaleFacts.

(** ** Strings and the tokenizer, further *)

Module TextFacts.

Import Js JsText ImportLib TokenizerFacts.

(** Induction on strings that may step over two characters at once. *)
Lemma string_ind2 (P : string → Prop) :
  P EmptyString →
  (∀ c, P (String c EmptyString)) →
  (∀ c d s, P s → P (String d s) → P (String c (String d s))) →
  ∀ s, P s.
Proof.
  intros H0 H1 H2 s.
  assert (Hboth : P s ∧ ∀ c, P (String c s)); [| by destruct Hboth].
  induction s as [|d s IH]; [by split |]. destruct IH as [IHs IHc].
  split; [apply IHc |]. intros c. apply H2; [done | apply IHc].
Qed.

Lemma trimStart_head (s : string) (c : ascii) (r : string) :
  trimStart s = String c r → isWhiteSpace c = false.
Proof.
  induction s as [|d s IH]; cbn; [done |].
  destruct (isWhiteSpace d) eqn:Hd; [done |]. by intros [= <- <-].
Qed.

Lemma trimStart_fixed (c : ascii) (r : string) :
  isWhiteSpace c = false → trimStart (String c r) = String c r.
Proof. intros Hc. cbn. by rewrite Hc. Qed.

Lemma trimEnd_cons (c : ascii) (s : string) :
  trimEnd (String c s)
  = match trimEnd s with
    | EmptyString => if isWhiteSpace c then EmptyString else String c EmptyString
    | kept => String c kept
    end.
Proof. reflexivity. Qed.

Lemma trimEnd_idem (s : string) : trimEnd (trimEnd s) = trimEnd s.
Proof.
  induction s as [|c s IH]; [done |]. rewrite trimEnd_cons.
  destruct (trimEnd s) as [|d kept] eqn:Hs.
  - destruct (isWhiteSpace c) eqn:Hc; [done |]. cbn. by rewrite Hc.
  - by rewrite trimEnd_cons, IH.
Qed.

Lemma trimEnd_head (c : ascii) (r : string) :
  isWhiteSpace c = false → ∃ r', trimEnd (String c r) = String c r'.
Proof.
  intros Hc. cbn [trimEnd]. destruct (trimEnd r); [| by eexists].
  rewrite Hc. by eexists.
Qed.

(** [trim] leaves a trimmed string alone. *)
Lemma trim_idem (s : string) : trim (trim s) = trim s.
Proof.
  unfold trim. destruct (trimStart s) as [|c r] eqn:Hs; [done |].
  apply trimStart_head in Hs.
  destruct (trimEnd_head c r Hs) as [r' Hr'].
  rewrite <- (trimEnd_idem (String c r)) at 2.
  rewrite Hr'. by rewrite trimStart_fixed.
Qed.

Lemma trimStart_blank (s : string) :
  allChars isWhiteSpace s = true → trimStart s = EmptyString.
Proof.
  induction s as [|c s IH]; cbn; [done |].
  intros [Hc Hs]%andb_true_iff. rewrite Hc. by apply IH.
Qed.

Lemma trim_blank (s : string) :
  allChars isWhiteSpace s = true → trim s = EmptyString.
Proof. intros Hs. unfold trim. by rewrite trimStart_blank. Qed.

(** One round of the loop. *)
Lemma loop_step (char : ascii) (rest cur : string) (inQuotes : bool)
    (result : list string) :
  parseCSVLine_loop (String char rest) cur inQuotes result
  = if charEq char DQUOTE then
      match inQuotes, rest with
      | true, String nextChar rest' =>
          if charEq nextChar DQUOTE
          then parseCSVLine_loop rest' (cur +:+ String DQUOTE EmptyString)
                 inQuotes result
          else parseCSVLine_loop rest cur (negb inQuotes) result
      | _, _ => parseCSVLine_loop rest cur (negb inQuotes) result
      end
    else if charEq char COMMA && negb inQuotes then
      parseCSVLine_loop rest EmptyString inQuotes (result ++ [trim cur])
    else
      parseCSVLine_loop rest (cur +:+ String char EmptyString) inQuotes result.
Proof. reflexivity. Qed.

(** Whatever the loop adds to [result] is a trimmed string, and it adds at
    least one. *)
Lemma loop_fields (Q : string → Prop) (line : string) :
  (∀ s, Q (trim s)) →
  ∀ cur inQuotes result,
    Forall Q result →
    Forall Q (parseCSVLine_loop line cur inQuotes result)
    ∧ length result < length (parseCSVLine_loop line cur inQuotes result).
Proof.
  intros HQ. induction line as [| c | c d s IHs IHd] using string_ind2;
    intros cur inQuotes result Hres.
  - cbn. rewrite length_app. cbn. split; [| lia].
    apply Forall_app. split; [done |]. by constructor.
  - assert (Hend : ∀ cur' result', Forall Q result' →
        Forall Q (result' ++ [trim cur'])
        ∧ length result' < length (result' ++ [trim cur'])).
    { intros cur' result' H'. rewrite length_app. cbn. split; [| lia].
      apply Forall_app. split; [done |]. by constructor. }
    cbn [parseCSVLine_loop].
    destruct (charEq c DQUOTE); [by destruct inQuotes; apply Hend |].
    destruct (charEq c COMMA && negb inQuotes); [| by apply Hend].
    destruct (Hend cur result Hres) as [HF1 Hl1].
    destruct (Hend EmptyString _ HF1) as [HF2 Hl2]. split; [done | lia].
  - rewrite loop_step.
    destruct (charEq c DQUOTE).
    + destruct inQuotes; [| by apply IHd].
      destruct (charEq d DQUOTE); [by apply IHs | by apply IHd].
    + destruct (charEq c COMMA && negb inQuotes); [| by apply IHd].
      assert (HF1 : Forall Q (result ++ [trim cur])).
      { apply Forall_app. split; [done |]. by constructor. }
      destruct (IHd EmptyString inQuotes _ HF1) as [HF2 Hl2].
      split; [done |]. rewrite length_app in Hl2.
      change (length [trim cur]) with 1 in Hl2. lia.
Qed.

(** X1. [parseCSVLine] returns at least one field for every line, and
    every field it returns is trimmed: trimming it again changes nothing. *)
Theorem parseCSVLine_fields_trimmed (line : string) :
  0 < length (parseCSVLine line)
  ∧ ∀ f, f ∈ parseCSVLine line → trim f = f.
Proof.
  unfold parseCSVLine.
  destruct (loop_fields (λ f, trim f = f) line trim_idem EmptyString false [])
    as [Hall Hlen]; [constructor |].
  split; [cbn in Hlen; lia |]. by apply Forall_forall.
Qed.

Lemma parseCSVLine_fields_trimmed_witness : trim "b c" = "b c".
Proof.
  destruct (parseCSVLine_fields_trimmed " a,  b c ") as [_ Htrimmed].
  apply Htrimmed. vm_compute. right. apply list_elem_of_here.
Defined.

Lemma splitOn_cons (sep c : ascii) (rest : string) :
  splitOn sep (String c rest)
  = if charEq c sep then EmptyString :: splitOn sep rest
    else match splitOn sep rest with
         | l :: ls => String c l :: ls
         | [] => [String c EmptyString]
         end.
Proof. reflexivity. Qed.

Lemma splitOn_nonempty (sep : ascii) (s : string) :
  ∃ l ls, splitOn sep s = l :: ls.
Proof.
  destruct s as [|c rest]; [by eexists _, _ |]. rewrite splitOn_cons.
  destruct (charEq c sep); [by eexists _, _ |].
  destruct (splitOn sep rest); by eexists _, _.
Qed.

(** Outside quotes and with no quote ahead, the loop cuts at commas. *)
Lemma loop_unquoted (line cur : string) (result : list string) :
  allChars notQuote line = true →
  parseCSVLine_loop line cur false result
  = result ++ map trim
      match splitOn COMMA line with
      | l :: ls => (cur +:+ l) :: ls
      | [] => [cur]
      end.
Proof.
  revert cur result. induction line as [|c line IH]; intros cur result Hplain.
  - cbn. by rewrite append_empty_r.
  - cbn [allChars] in Hplain. apply andb_true_iff in Hplain as [Hc Hplain].
    unfold notQuote in Hc. apply negb_true_iff in Hc.
    rewrite loop_step, Hc, splitOn_cons. cbn [negb]. rewrite andb_true_r.
    destruct (splitOn_nonempty COMMA line) as (l & ls & Hsplit).
    destruct (charEq c COMMA) eqn:Hcomma.
    + rewrite IH by done. rewrite Hsplit, append_empty_r, append_nil_l.
      cbn [map]. by rewrite <- app_assoc.
    + rewrite IH by done. rewrite Hsplit. by rewrite append_snoc.
Qed.

(** X2. A line without any double quote is cut at its commas: the fields
    are the pieces between the commas, each trimmed, so there is one more
    field than there are commas. *)
Theorem parseCSVLine_unquoted (line : string) :
  allChars notQuote line = true →
  parseCSVLine line = map trim (splitOn COMMA line).
Proof.
  intros Hplain. unfold parseCSVLine. rewrite loop_unquoted by done.
  destruct (splitOn_nonempty COMMA line) as (l & ls & ->).
  by rewrite append_nil_l.
Qed.

Lemma parseCSVLine_unquoted_witness :
  parseCSVLine " a, b c ,,d" = ["a"; "b c"; ""; "d"].
Proof. apply (parseCSVLine_unquoted " a, b c ,,d"). reflexivity. Defined.

(** Inside quotes and with no quote ahead, the loop reads to the end. *)
Lemma loop_open_quote (rest cur : string) (result : list string) :
  allChars notQuote rest = true →
  parseCSVLine_loop rest cur true result = result ++ [trim (cur +:+ rest)].
Proof.
  revert cur. induction rest as [|c rest IH]; intros cur Hplain.
  - cbn. by rewrite append_empty_r.
  - cbn [allChars] in Hplain. apply andb_true_iff in Hplain as [Hc Hplain].
    unfold notQuote in Hc. apply negb_true_iff in Hc.
    rewrite loop_step, Hc. cbn [negb]. rewrite andb_false_r.
    rewrite IH by done. by rewrite append_snoc.
Qed.

(** X3. A quote that is opened and never closed is no error: the rest of
    the line, commas included, becomes one field. *)
Theorem parseCSVLine_unclosed_quote (rest : string) :
  allChars notQuote rest = true →
  parseCSVLine (String DQUOTE rest) = [trim rest].
Proof.
  intros Hplain. unfold parseCSVLine. rewrite loop_step.
  change (charEq DQUOTE DQUOTE) with true. cbv iota. cbn [negb].
  rewrite loop_open_quote by done. by rewrite append_nil_l.
Qed.

Lemma parseCSVLine_unclosed_quote_witness :
  parseCSVLine (String DQUOTE "Acme, Inc,100,5") = ["Acme, Inc,100,5"].
Proof. apply (parseCSVLine_unclosed_quote "Acme, Inc,100,5"). reflexivity. Defined.

Lemma splitLines_cons (c : ascii) (rest : string) :
  splitLines (String c rest)
  = let keep :=
      match splitLines rest with
      | l :: ls => String c l :: ls
      | [] => [String c EmptyString]
      end in
    if charEq c LF then EmptyString :: splitLines rest
    else if charEq c CR then
      match rest with
      | String c' rest' =>
          if charEq c' LF then EmptyString :: splitLines rest' else keep
      | EmptyString => keep
      end
    else keep.
Proof. reflexivity. Qed.

Lemma notLineBreak_inv (c : ascii) :
  notLineBreak c = true → charEq c LF = false ∧ charEq c CR = false.
Proof.
  unfold notLineBreak. intros [H1 H2]%andb_true_iff.
  by apply negb_true_iff in H1, H2.
Qed.

(** A piece without line break, followed by a separator, is one line. *)
Lemma splitLines_piece (l rest : string) :
  allChars notLineBreak l = true →
  splitLines l = [l]
  ∧ splitLines (l +:+ String LF rest) = l :: splitLines rest
  ∧ splitLines (l +:+ String CR (String LF rest)) = l :: splitLines rest.
Proof.
  induction l as [|c l IH]; intros Hplain; [done |].
  cbn [allChars] in Hplain. apply andb_true_iff in Hplain as [Hc Hplain].
  apply notLineBreak_inv in Hc as [Hlf Hcr].
  destruct (IH Hplain) as (H1 & H2 & H3).
  rewrite !append_cons, !splitLines_cons, Hlf, Hcr. cbv zeta.
  by rewrite H1, H2, H3.
Qed.

Lemma splitLines_join (l : string) (ls : list string) :
  Forall (λ x, allChars notLineBreak x = true) (l :: ls) →
  splitLines (join (String LF EmptyString) (l :: ls)) = l :: ls
  ∧ splitLines (join (String CR (String LF EmptyString)) (l :: ls)) = l :: ls.
Proof.
  revert l. induction ls as [|l' ls IH]; intros l Hall.
  - apply Forall_cons in Hall as [Hl _]. cbn [join].
    by destruct (splitLines_piece l EmptyString Hl) as (-> & _).
  - apply Forall_cons in Hall as [Hl Hall]. destruct (IH l' Hall) as [IH1 IH2].
    change (join ?sep (l :: l' :: ls)) with (l +:+ sep +:+ join sep (l' :: ls)).
    rewrite !append_cons, !append_nil_l.
    destruct (splitLines_piece l (join (String LF EmptyString) (l' :: ls)) Hl)
      as (_ & -> & _).
    destruct (splitLines_piece l
      (join (String CR (String LF EmptyString)) (l' :: ls)) Hl) as (_ & _ & ->).
    by rewrite IH1, IH2.
Qed.

(** X5. Lines joined with LF and the same lines joined with CR LF split
    back into those lines, so a text parses the same under either
    newline convention. *)
Theorem parseCSV_newline_conventions {T : Type}
    (columnMapping : list ColumnMapping) (transform : Transform T)
    (l : string) (ls : list string) :
  Forall (λ x, allChars notLineBreak x = true) (l :: ls) →
  splitLines (join (String LF EmptyString) (l :: ls)) = l :: ls
  ∧ splitLines (join (String CR (String LF EmptyString)) (l :: ls)) = l :: ls
  ∧ parseCSV columnMapping transform
      (Loaded (join (String CR (String LF EmptyString)) (l :: ls)))
    = parseCSV columnMapping transform
        (Loaded (join (String LF EmptyString) (l :: ls))).
Proof.
  intros Hall. destruct (splitLines_join l ls Hall) as [Hlf Hcrlf].
  split; [done |]. split; [done |].
  cbn [parseCSV]. unfold parseCSV_onload, nonBlankLines.
  by rewrite Hlf, Hcrlf.
Qed.

Lemma parseCSV_newline_conventions_witness :
  splitLines (join (String LF EmptyString) ["name,qty"; "bolt,4"])
  = ["name,qty"; "bolt,4"]
  ∧ splitLines (join (String CR (String LF EmptyString)) ["name,qty"; "bolt,4"])
    = ["name,qty"; "bolt,4"]
  ∧ parseCSV Scenarios.stockColumns (WithTransform Scenarios.stockTransform)
      (Loaded (join (String CR (String LF EmptyString)) ["name,qty"; "bolt,4"]))
    = parseCSV Scenarios.stockColumns (WithTransform Scenarios.stockTransform)
        (Loaded (join (String LF EmptyString) ["name,qty"; "bolt,4"])).
Proof.
  apply (parseCSV_newline_conventions Scenarios.stockColumns
           (WithTransform Scenarios.stockTransform) "name,qty" ["bolt,4"]).
  repeat constructor.
Defined.

(** The lines of a text hold only characters of the text. *)
Lemma splitLines_allChars (p : ascii → bool) (text : string) :
  allChars p text = true →
  Forall (λ l, allChars p l = true) (splitLines text).
Proof.
  induction text as [| c | c d s IHs IHd] using string_ind2; intros Hp.
  - by repeat constructor.
  - cbn [allChars] in Hp. rewrite splitLines_cons. cbv zeta. cbn [splitLines].
    destruct (charEq c LF); [by repeat constructor |].
    destruct (charEq c CR); repeat constructor; cbn [allChars]; done.
  - assert (Hds : allChars p (String d s) = true).
    { cbn [allChars] in *. by apply andb_true_iff in Hp as [_ ?]. }
    assert (Hs : allChars p s = true).
    { cbn [allChars] in Hds. by apply andb_true_iff in Hds as [_ ?]. }
    assert (Hc : p c = true).
    { cbn [allChars] in Hp. by apply andb_true_iff in Hp as [? _]. }
    specialize (IHs Hs). specialize (IHd Hds).
    assert (Hkeep : Forall (λ l, allChars p l = true)
        match splitLines (String d s) with
        | l :: ls => String c l :: ls
        | [] => [String c EmptyString]
        end).
    { destruct (splitLines (String d s)) as [|l ls].
      - repeat constructor. cbn. by rewrite Hc.
      - apply Forall_cons in IHd as [Hl Hls]. constructor; [| done].
        cbn [allChars]. by rewrite Hc, Hl. }
    rewrite splitLines_cons. cbv zeta.
    destruct (charEq c LF); [by constructor |].
    destruct (charEq c CR); [| done].
    destruct (charEq d LF); [by constructor | done].
Qed.

Lemma nonBlankLines_blank (text : string) :
  allChars isWhiteSpace text = true → nonBlankLines text = [].
Proof.
  intros Hblank. unfold nonBlankLines.
  pose proof (splitLines_allChars isWhiteSpace text Hblank) as Hall.
  induction Hall as [|l ls Hl _ IH]; [done |].
  rewrite filter_cons. rewrite decide_False; [done |].
  by rewrite trim_blank.
Qed.

(** X4. A text made of white space only (blanks, tabs, line breaks) has
    no line to parse: the result is the single error [CSV file is empty],
    whatever the mapping. *)
Theorem parseCSV_blank_text {T : Type} (columnMapping : list ColumnMapping)
    (transform : Transform T) (text : string) :
  allChars isWhiteSpace text = true →
  parseCSV columnMapping transform (Loaded text)
  = {| data := []; errors := ["CSV file is empty"] |}.
Proof.
  intros Hblank. cbn [parseCSV]. unfold parseCSV_onload.
  by rewrite nonBlankLines_blank.
Qed.

Lemma parseCSV_blank_text_witness :
  parseCSV Scenarios.stockColumns (WithTransform Scenarios.stockTransform)
    (Loaded (String LF (" " +:+ String CR (String LF "  "))))
  = {| data := []; errors := ["CSV file is empty"] |}.
Proof.
  apply (parseCSV_blank_text Scenarios.stockColumns
           (WithTransform Scenarios.stockTransform)).
  reflexivity.
Defined.

End TextFacts.

(** ** [parseCSV], further *)

Module ParseMore.

Import Js JsText ImportLib ParseView ParseFacts.

Lemma findIndex_Some {A} (p : A → bool) (xs : list A) (i : nat) :
  findIndex p xs = Some i →
  ∃ x, xs !! i = Some x ∧ p x = true
       ∧ ∀ j y, j < i → xs !! j = Some y → p y = false.
Proof.
  revert i. induction xs as [|x xs IH]; intros i; cbn; [done |].
  destruct (p x) eqn:Hpx.
  - intros [= <-]. exists x. split; [done |]. split; [done |]. lia.
  - destruct (findIndex p xs) as [k|]; cbn; [| done].
    intros [= <-]. destruct (IH k eq_refl) as (y & Hy & Hpy & Hfirst).
    exists y. split; [done |]. split; [done |].
    intros [|j] z Hj Hz; cbn in Hz; [congruence |].
    apply (Hfirst j); [lia | done].
Qed.

(** Every binding of [columnIndices] was there before or comes from an
    entry of the mapping whose header was found at that index. *)
Lemma resolveColumns_bound (headers : list string) (mapping : list ColumnMapping)
    (st : gmap string nat * list string) (f : string) (idx : nat) :
  (foldl (resolveColumn headers) st mapping).1 !! f = Some idx →
  st.1 !! f = Some idx
  ∨ ∃ m, m ∈ mapping ∧ field m = f
         ∧ findIndex (headerMatches (csvHeader m)) headers = Some idx.
Proof.
  revert st. induction mapping as [|m mapping IH]; intros st; cbn [foldl].
  - by left.
  - intros Hf. apply IH in Hf as [Hf | (m' & Hin & Hfield & Hfind)].
    + unfold resolveColumn in Hf.
      destruct (findIndex (headerMatches (csvHeader m)) headers) as [index|] eqn:Hm;
        cbn [fst] in Hf; [| by left].
      destruct (decide (field m = f)) as [<- | Hne].
      * rewrite lookup_insert_eq in Hf. injection Hf as ->.
        right. exists m. split; [apply list_elem_of_here | done].
      * rewrite lookup_insert_ne in Hf by done. by left.
    + right. exists m'. split; [by right | done].
Qed.

(** X7. A column index that [parseCSV] resolves for a field lies inside the
    header row and is the position of the first header cell that equals the
    declared header of some mapping entry for that field, ignoring case and
    surrounding white space; the order of the columns in the file does not
    matter. *)
Theorem resolved_index_is_first_match (headers : list string)
    (columnMapping : list ColumnMapping) (f : string) (idx : nat) :
  (resolveColumns headers columnMapping).1 !! f = Some idx →
  idx < length headers
  ∧ ∃ m h, m ∈ columnMapping ∧ field m = f ∧ headers !! idx = Some h
      ∧ trim (toLowerCase h) = trim (toLowerCase (csvHeader m))
      ∧ ∀ j h', j < idx → headers !! j = Some h' →
          trim (toLowerCase h') ≠ trim (toLowerCase (csvHeader m)).
Proof.
  intros Hf. unfold resolveColumns in Hf.
  apply resolveColumns_bound in Hf as [Hf | (m & Hin & Hfield & Hfind)];
    [cbn [fst] in Hf; by rewrite lookup_empty in Hf |].
  apply findIndex_Some in Hfind as (h & Hh & Hmatch & Hfirst).
  split; [by eapply lookup_lt_Some |].
  exists m, h. split; [done |]. split; [done |]. split; [done |].
  unfold headerMatches in Hmatch. apply String.eqb_eq in Hmatch.
  split; [done |]. intros j h' Hj Hh'.
  specialize (Hfirst j h' Hj Hh'). unfold headerMatches in Hfirst.
  by apply String.eqb_neq in Hfirst.
Qed.

Lemma resolved_index_is_first_match_witness :
  1 < length ["note"; " QTY "; "name"; "qty"]
  ∧ ∃ m h, m ∈ Scenarios.stockColumns ∧ field m = "qty"
      ∧ ["note"; " QTY "; "name"; "qty"] !! 1 = Some h
      ∧ trim (toLowerCase h) = trim (toLowerCase (csvHeader m))
      ∧ ∀ j h', j < 1 → ["note"; " QTY "; "name"; "qty"] !! j = Some h' →
          trim (toLowerCase h') ≠ trim (toLowerCase (csvHeader m)).
Proof.
  apply (resolved_index_is_first_match ["note"; " QTY "; "name"; "qty"]
           Scenarios.stockColumns "qty" 1).
  reflexivity.
Defined.

(** A field stays bound, and an entry whose header is found binds its
    field. *)
Lemma resolveColumns_keeps (headers : list string) (mapping : list ColumnMapping)
    (st : gmap string nat * list string) (f : string) :
  is_Some (st.1 !! f) →
  is_Some ((foldl (resolveColumn headers) st mapping).1 !! f).
Proof.
  revert st. induction mapping as [|m mapping IH]; intros st Hf; [done |].
  cbn [foldl]. apply IH. unfold resolveColumn.
  destruct (findIndex (headerMatches (csvHeader m)) headers); [| done].
  cbn [fst]. destruct (decide (field m = f)) as [<- | Hne].
  - by rewrite lookup_insert_eq.
  - by rewrite lookup_insert_ne.
Qed.

Lemma resolveColumns_binds (headers : list string) (mapping : list ColumnMapping)
    (st : gmap string nat * list string) (m : ColumnMapping) :
  missingEntries headers mapping = [] →
  m ∈ mapping →
  is_Some ((foldl (resolveColumn headers) st mapping).1 !! field m).
Proof.
  revert st. induction mapping as [|m0 mapping IH]; intros st Hnone Hin.
  - by apply elem_of_nil in Hin.
  - unfold missingEntries in Hnone. rewrite filter_cons in Hnone.
    destruct (decide (findIndex (headerMatches (csvHeader m0)) headers = None))
      as [Hmiss | Hfound]; [done |].
    cbn [foldl]. apply elem_of_cons in Hin as [-> | Hin].
    + apply resolveColumns_keeps. unfold resolveColumn.
      destruct (findIndex (headerMatches (csvHeader m0)) headers); [| done].
      cbn [fst]. by rewrite lookup_insert_eq.
    + by apply IH.
Qed.

Lemma setProperty_keeps (row : RowData) (key value h : string) :
  is_Some (row !! h) → is_Some (setProperty row key value !! h).
Proof.
  intros Hh. unfold setProperty. destruct (String.eqb key "__proto__"); [done |].
  destruct (decide (key = h)) as [<- | Hne].
  - by rewrite lookup_insert_eq.
  - by rewrite lookup_insert_ne.
Qed.

Lemma buildRow_keeps (indices : gmap string nat) (values : list string)
    (mapping : list ColumnMapping) (row : RowData) (h : string) :
  is_Some (row !! h) →
  is_Some (foldl (fillCell indices values) row mapping !! h).
Proof.
  revert row. induction mapping as [|m mapping IH]; intros row Hh; [done |].
  cbn [foldl]. apply IH. unfold fillCell.
  destruct (indices !! field m); [| done]. by apply setProperty_keeps.
Qed.

(** X8. Once the header row resolves every column, the row object handed
    to the transform has a value under every declared header (other than
    [__proto__]), however many cells the row has: the transform never reads
    [undefined] for a declared column. *)
Theorem row_has_every_declared_header (headers values : list string)
    (columnMapping : list ColumnMapping) (m : ColumnMapping) :
  missingEntries headers columnMapping = [] →
  m ∈ columnMapping →
  csvHeader m ≠ "__proto__" →
  is_Some (buildRow (resolveColumns headers columnMapping).1 columnMapping values
             !! csvHeader m).
Proof.
  intros Hnone Hin Hproto.
  assert (Hbound : ∀ m', m' ∈ columnMapping →
      is_Some ((resolveColumns headers columnMapping).1 !! field m')).
  { intros m' Hm'. by apply resolveColumns_binds. }
  unfold buildRow.
  generalize (∅ : RowData) as row.
  revert Hin Hbound. generalize ((resolveColumns headers columnMapping).1) as indices.
  intros indices. clear Hnone.
  induction columnMapping as [|m0 mapping IH]; intros Hin Hbound row.
  - by apply elem_of_nil in Hin.
  - cbn [foldl]. apply elem_of_cons in Hin as [-> | Hin].
    + apply buildRow_keeps. unfold fillCell.
      destruct (Hbound m0 (list_elem_of_here _ _)) as [index ->].
      unfold setProperty. apply String.eqb_neq in Hproto. rewrite Hproto.
      by rewrite lookup_insert_eq.
    + apply IH; [done |]. intros m' Hm'. apply Hbound. by right.
Qed.

Lemma row_has_every_declared_header_witness :
  is_Some (buildRow (resolveColumns ["name"; "note"; "QTY"] Scenarios.stockColumns).1
             Scenarios.stockColumns ["bolt"] !! "Qty").
Proof.
  apply (row_has_every_declared_header ["name"; "note"; "QTY"] ["bolt"]
           Scenarios.stockColumns {| csvHeader := "Qty"; field := "qty" |}).
  - reflexivity.
  - right. apply list_elem_of_here.
  - discriminate.
Defined.

Lemma omap_all_returned {T} (outcome : string → Outcome T) (rows : list string) :
  (∀ raw, raw ∈ rows → ∃ t, outcome raw = Returned t) →
  Returned <$> omap (λ raw, match outcome raw with
                            | Returned t => Some t
                            | Threw _ => None
                            end) rows
  = outcome <$> rows.
Proof.
  induction rows as [|raw rows IH]; intros Hall; [done |].
  cbn [omap list_omap fmap list_fmap].
  destruct (Hall raw (list_elem_of_here _ _)) as [t Ht]. rewrite Ht.
  cbn [fmap list_fmap]. f_equal. apply IH. intros raw' Hin. apply Hall. by right.
Qed.

Lemma omap_imap_all_none {A} (f : nat → A → option string) (l : list A) :
  (∀ j x, x ∈ l → f j x = None) → omap id (imap f l) = [].
Proof.
  revert f. induction l as [|x l IH]; intros f Hf; [done |].
  rewrite imap_cons. cbn. rewrite Hf by apply list_elem_of_here. cbn.
  apply IH. intros j y Hy. apply Hf. by right.
Qed.

(** X6. When the header row resolves every column and the transform
    returns on every data row, the parse reports no error and returns
    exactly one record per non-blank data row, in the order of the rows:
    the record at each position is what the transform returned for that
    row. *)
Theorem parseCSV_valid_rows {T : Type} (columnMapping : list ColumnMapping)
    (transform : Transform T) (text headerLine : string) (rows : list string) :
  nonBlankLines text = headerLine :: rows →
  missingEntries (parseCSVLine headerLine) columnMapping = [] →
  (∀ raw, raw ∈ rows → ∃ t,
      rowOutcome columnMapping transform
        (resolveColumns (parseCSVLine headerLine) columnMapping).1 raw
      = Returned t) →
  let r := parseCSV columnMapping transform (Loaded text) in
  errors r = []
  ∧ length (data r) = length rows
  ∧ Returned <$> data r
    = rowOutcome columnMapping transform
        (resolveColumns (parseCSVLine headerLine) columnMapping).1 <$> rows.
Proof.
  intros Hlines Hnone Hall r. subst r.
  rewrite (parseCSV_resolved _ _ _ _ _ Hlines Hnone).
  rewrite parseRows_spec by eauto using rows_nonBlank.
  cbn [data errors app].
  assert (Hdata : Returned <$> omap (rowRecord columnMapping transform
      (resolveColumns (parseCSVLine headerLine) columnMapping).1) rows
      = rowOutcome columnMapping transform
          (resolveColumns (parseCSVLine headerLine) columnMapping).1 <$> rows).
  { by apply omap_all_returned. }
  split; [| split; [| done]].
  - apply omap_imap_all_none. intros j raw Hraw. unfold rowFailure.
    by destruct (Hall raw Hraw) as [t ->].
  - apply (f_equal length) in Hdata. by rewrite !length_fmap in Hdata.
Qed.

Lemma parseCSV_valid_rows_witness :
  let r := parseCSV Scenarios.stockColumns (WithTransform Scenarios.stockTransform)
             (Loaded (Scenarios.line "qty,name" (Scenarios.line "4,bolt" "7, nut"))) in
  errors r = [] ∧ data r = [("bolt", 4%Z); ("nut", 7%Z)].
Proof.
  destruct (parseCSV_valid_rows Scenarios.stockColumns
              (WithTransform Scenarios.stockTransform)
              (Scenarios.line "qty,name" (Scenarios.line "4,bolt" "7, nut"))
              "qty,name" ["4,bolt"; "7, nut"]) as (Herr & _ & _).
  - reflexivity.
  - reflexivity.
  - intros raw Hraw.
    apply elem_of_cons in Hraw as [-> | Hraw]; [by eexists |].
    apply list_elem_of_singleton in Hraw as ->. by eexists.
  - split; [exact Herr | reflexivity].
Defined.

End ParseMore.

(** ** Regular expressions *)

Module RegExpFacts.

Import Js JsText JsRegExp TokenizerFacts.

Lemma append_eq_empty (s1 s2 : string) :
  s1 +:+ s2 = EmptyString → s1 = EmptyString ∧ s2 = EmptyString.
Proof. destruct s1; [by rewrite append_nil_l | by rewrite append_cons]. Qed.

Lemma matches_seq (r1 r2 : RegExp) (s : string) :
  Matches (Seq r1 r2) s ↔
  ∃ s1 s2, s = s1 +:+ s2 ∧ Matches r1 s1 ∧ Matches r2 s2.
Proof.
  split.
  - inversion 1; subst. by eexists _, _.
  - intros (s1 & s2 & -> & H1 & H2). by constructor.
Qed.

Lemma matches_nullable (r : RegExp) : nullable r = true ↔ Matches r EmptyString.
Proof.
  split.
  - induction r as [| | p | r1 IH1 r2 IH2 | r1 IH1 r2 IH2 | r IH]; cbn; try done.
    + intros _. constructor.
    + intros [H1 H2]%andb_true_iff.
      apply (MSeq r1 r2 EmptyString EmptyString); auto.
    + intros [H1 | H2]%orb_true_iff; [apply MAltL | apply MAltR]; auto.
    + intros _. constructor.
  - intros H. remember EmptyString as w eqn:Hw.
    induction H as [| p c Hp | r1 r2 s1 s2 _ IH1 _ IH2 | r1 r2 s _ IH
                   | r1 r2 s _ IH | r | r s1 s2 _ _ _ _]; cbn; try done.
    + apply append_eq_empty in Hw as [-> ->]. by rewrite IH1, IH2.
    + by rewrite IH.
    + rewrite IH by done. apply orb_true_r.
Qed.

Lemma matches_derive_1 (c : ascii) (r : RegExp) (s : string) :
  Matches (derive c r) s → Matches r (String c s).
Proof.
  revert s.
  induction r as [| | p | r1 IH1 r2 IH2 | r1 IH1 r2 IH2 | r IH]; intros s; cbn.
  - inversion 1.
  - inversion 1.
  - destruct (p c) eqn:Hp; inversion 1; subst. by constructor.
  - assert (Hleft : Matches (Seq (derive c r1) r2) s → Matches (Seq r1 r2) (String c s)).
    { intros (s1 & s2 & -> & H1 & H2)%matches_seq.
      rewrite <- append_cons. constructor; auto. }
    destruct (nullable r1) eqn:Hn; [| done].
    inversion 1; subst; [auto |].
    apply (MSeq r1 r2 EmptyString (String c s)); [by apply matches_nullable | auto].
  - inversion 1; subst; [apply MAltL | apply MAltR]; auto.
  - intros (s1 & s2 & -> & H1 & H2)%matches_seq.
    rewrite <- append_cons. constructor; auto.
Qed.

Lemma matches_derive_2 (r : RegExp) (w : string) :
  Matches r w → ∀ c s, w = String c s → Matches (derive c r) s.
Proof.
  induction 1 as [| p c0 Hp | r1 r2 s1 s2 H1 IH1 H2 IH2 | r1 r2 s0 _ IH
                 | r1 r2 s0 _ IH | r | r s1 s2 H1 IH1 H2 IH2]; intros c s Hw.
  - done.
  - injection Hw as -> <-. cbn. rewrite Hp. constructor.
  - cbn. destruct s1 as [|c1 s1].
    + rewrite append_nil_l in Hw. apply matches_nullable in H1. rewrite H1.
      apply MAltR. by apply IH2.
    + rewrite append_cons in Hw. injection Hw as -> <-.
      assert (Matches (Seq (derive c r1) r2) (s1 +:+ s2)).
      { constructor; [by apply IH1 | done]. }
      destruct (nullable r1); [by apply MAltL | done].
  - cbn. apply MAltL. by apply IH.
  - cbn. apply MAltR. by apply IH.
  - done.
  - destruct s1 as [|c1 s1].
    + rewrite append_nil_l in Hw. by apply IH2.
    + rewrite append_cons in Hw. injection Hw as -> <-. cbn.
      constructor; [by apply IH1 | done].
Qed.

(** The matcher decides the language of the expression. *)
Lemma test_correct (r : RegExp) (s : string) : test r s = true ↔ Matches r s.
Proof.
  revert r. induction s as [|c s IH]; intros r; cbn [test].
  - apply matches_nullable.
  - rewrite IH. split; [apply matches_derive_1 |].
    intros H. by apply (matches_derive_2 r (String c s)).
Qed.

Lemma matches_class (p : ascii → bool) (s : string) :
  Matches (Class p) s ↔ ∃ c, s = String c EmptyString ∧ p c = true.
Proof.
  split.
  - inversion 1; subst. by eexists.
  - intros (c & -> & Hp). by constructor.
Qed.

Lemma matches_lit (c : ascii) (s : string) :
  Matches (Lit c) s ↔ s = String c EmptyString.
Proof.
  unfold Lit. rewrite matches_class. split.
  - intros (c' & -> & Hc). by apply charEq_true in Hc as ->.
  - intros ->. exists c. split; [done |]. by apply charEq_true.
Qed.

Lemma matches_star_class (p : ascii → bool) (s : string) :
  Matches (Star (Class p)) s ↔ allChars p s = true.
Proof.
  split.
  - intros H. remember (Star (Class p)) as r eqn:Hr.
    induction H as [| | | | | r0 | r0 s1 s2 H1 _ H2 IH2]; try done.
    injection Hr as ->. apply matches_class in H1 as (c & -> & Hp).
    rewrite append_cons, append_nil_l. cbn [allChars]. rewrite Hp. by apply IH2.
  - induction s as [|c s IH]; [constructor |].
    cbn [allChars]. intros [Hp Hs]%andb_true_iff.
    apply (MStarApp (Class p) (String c EmptyString) s); [by constructor | auto].
Qed.

Lemma matches_plus_class (p : ascii → bool) (s : string) :
  Matches (Plus (Class p)) s ↔ s ≠ EmptyString ∧ allChars p s = true.
Proof.
  unfold Plus. rewrite matches_seq. split.
  - intros (s1 & s2 & -> & (c & -> & Hp)%matches_class & H2%matches_star_class).
    rewrite append_cons, append_nil_l. split; [done |]. cbn [allChars].
    by rewrite Hp, H2.
  - intros [Hne Hall]. destruct s as [|c s]; [done |].
    cbn [allChars] in Hall. apply andb_true_iff in Hall as [Hp Hs].
    exists (String c EmptyString), s. split; [done |].
    split; [by constructor | by apply matches_star_class].
Qed.

End RegExpFacts.

(** ** Validators, further *)

Module ValidatorMore.

Import Js JsText JsRegExp ImportLib ValidatorView TokenizerFacts TextFacts RegExpFacts.

(** X10. [validateRequired] returns only the trimmed value, which is then
    neither empty nor padded with white space; on a value that is empty or
    all white space it throws [<field> is required]. *)
Theorem validateRequired_trimmed_or_required (value fieldName : string) :
  (∀ v, validateRequired value fieldName = Returned v →
        v = trim value ∧ v ≠ EmptyString ∧ trim v = v)
  ∧ (allChars isWhiteSpace value = true →
     validateRequired value fieldName = throwError (fieldName +:+ " is required")).
Proof.
  unfold validateRequired. split.
  - intros v. destruct (negb (truthy value) || String.eqb (trim value) EmptyString)
      eqn:Hbad; [done |].
    intros [= <-]. apply orb_false_iff in Hbad as [_ Hne].
    apply String.eqb_neq in Hne. split; [done |]. split; [done |].
    apply trim_idem.
  - intros Hblank. rewrite (trim_blank value Hblank). cbn.
    by rewrite orb_true_r.
Qed.

Lemma validateRequired_trimmed_or_required_witness :
  validateRequired "   " "Name" = throwError "Name is required".
Proof.
  destruct (validateRequired_trimmed_or_required "   " "Name") as [_ Hblank].
  apply Hblank. reflexivity.
Defined.

(** The email expression denotes the strings of the shape
    [local@domain.tld]. *)
Lemma emailRegex_shape (e : string) : Matches emailRegex e ↔ emailShape e.
Proof.
  unfold emailRegex, emailShape, emailPart. split.
  - intros (l & s1 & -> & Hl%matches_plus_class & H1)%matches_seq.
    apply matches_seq in H1 as (a & s2 & -> & ->%matches_lit & H2).
    apply matches_seq in H2 as (d & s3 & -> & Hd%matches_plus_class & H3).
    apply matches_seq in H3 as (o & t & -> & ->%matches_lit & Ht%matches_plus_class).
    exists l, d, t. by rewrite !append_cons, !append_nil_l.
  - intros (l & d & t & -> & Hl & Hd & Ht).
    apply matches_seq. exists l, (String "@"%char (d +:+ String "."%char t)).
    split; [done |]. split; [by apply matches_plus_class |].
    apply matches_seq. exists (String "@"%char EmptyString), (d +:+ String "."%char t).
    split; [done |]. split; [by apply matches_lit |].
    apply matches_seq. exists d, (String "."%char t).
    split; [done |]. split; [by apply matches_plus_class |].
    apply matches_seq. exists (String "."%char EmptyString), t.
    split; [done |]. split; [by apply matches_lit | by apply matches_plus_class].
Qed.

(** X13. [validateEmail] returns exactly the trimmed value, and only when
    that has the shape [local@domain.tld]: three non-empty runs free of
    white space and of further at signs, the last two joined by a dot. Any
    other value throws [<field> must be a valid email address]. *)
Theorem validateEmail_shape (value fieldName : string) :
  (∀ e, validateEmail value fieldName = Returned e ↔
        e = trim value ∧ emailShape e)
  ∧ (¬ emailShape (trim value) →
     validateEmail value fieldName
     = throwError (fieldName +:+ " must be a valid email address")).
Proof.
  unfold validateEmail.
  destruct (test emailRegex (trim value)) eqn:Htest; cbn [negb]; split.
  - apply test_correct, emailRegex_shape in Htest.
    intros e. split; [by intros [= <-] | by intros [-> _]].
  - apply test_correct, emailRegex_shape in Htest. by intros [].
  - intros e. split; [done |]. intros [-> Hshape].
    apply emailRegex_shape, test_correct in Hshape. congruence.
  - done.
Qed.

Lemma validateEmail_shape_witness :
  validateEmail "a@b" "Email" = throwError "Email must be a valid email address".
Proof.
  destruct (validateEmail_shape "a@b" "Email") as [_ Hbad].
  apply Hbad. intros Hshape.
  apply emailRegex_shape, test_correct in Hshape. discriminate.
Defined.

Lemma digitValue_decimal (c : ascii) (v : Z) :
  digitValue 10 c = Some v → isDigit c = true.
Proof.
  unfold digitValue, hexValue, isDigit.
  destruct (Nat.leb 48 (nat_of_ascii c) && Nat.leb (nat_of_ascii c) 57); [done |].
  destruct (Nat.leb 65 (nat_of_ascii c) && Nat.leb (nat_of_ascii c) 70) eqn:Hupper.
  - apply andb_true_iff in Hupper as [H1%Nat.leb_le H2%Nat.leb_le].
    destruct (Z.ltb_spec (Z.of_nat (nat_of_ascii c - 55)) 10); [lia | done].
  - destruct (Nat.leb 97 (nat_of_ascii c) && Nat.leb (nat_of_ascii c) 102) eqn:Hlower;
      [| done].
    apply andb_true_iff in Hlower as [H1%Nat.leb_le H2%Nat.leb_le].
    destruct (Z.ltb_spec (Z.of_nat (nat_of_ascii c - 87)) 10); [lia | done].
Qed.

Lemma readDigits_head (radix : Z) (s : string) (n : Z) :
  readDigits radix s None = Some n →
  ∃ c rest v, s = String c rest ∧ digitValue radix c = Some v.
Proof.
  destruct s as [|c rest]; cbn; [done |].
  destruct (digitValue radix c) as [v|] eqn:Hv; [| done].
  intros _. by exists c, rest, v.
Qed.

(** Without a leading digit there is no [0x] prefix to strip. *)
Lemma radix_of_non_digit (c : ascii) (r : string) :
  isDigit c = false →
  match String c r with
  | String "0"%char (String x rest) =>
      if charEq x "x"%char || charEq x "X"%char
      then (16%Z, rest) else (10%Z, String c r)
  | _ => (10%Z, String c r)
  end = (10%Z, String c r).
Proof.
  destruct c as [[] [] [] [] [] [] [] []]; intros Hc; try reflexivity.
  discriminate Hc.
Qed.

(** What [parseIntMath] reads after the sign begins with a digit. *)
Lemma parseInt_digits (S1 : string) (sign n : Z) :
  (let '(radix, S2) :=
     match S1 with
     | String "0"%char (String x rest) =>
         if charEq x "x"%char || charEq x "X"%char
         then (16%Z, rest) else (10%Z, S1)
     | _ => (10%Z, S1)
     end in
   (λ m, (sign * m)%Z) <$> readDigits radix S2 None) = Some n →
  startsWithDigit S1 = true.
Proof.
  destruct S1 as [|c r]; [done |]. cbn [startsWithDigit].
  destruct (isDigit c) eqn:Hc; [done |].
  rewrite radix_of_non_digit by done.
  destruct (readDigits 10 (String c r) None) as [m|] eqn:Hread; [| done].
  apply readDigits_head in Hread as (c' & rest & v & [= <- <-] & Hv).
  apply digitValue_decimal in Hv. congruence.
Qed.

Lemma digit_is_not_I (c : ascii) : isDigit c = true → charEq "I"%char c = false.
Proof.
  destruct c as [[] [] [] [] [] [] [] []]; intros Hc; try reflexivity.
  discriminate Hc.
Qed.

Lemma unsignedDecimalLiteral_digit (s : string) :
  startsWithDigit s = true → ∃ lit, unsignedDecimalLiteral s = Some lit.
Proof.
  destruct s as [|c r]; [done |]. cbn [startsWithDigit]. intros Hc.
  unfold unsignedDecimalLiteral. cbn [isPrefixOf].
  rewrite (digit_is_not_I c Hc). cbn [andb]. cbn [spanDigits]. rewrite Hc.
  destruct (spanDigits r) as [ds tl].
  destruct tl as [|c' rest]; [by eexists |].
  destruct (charEq c' "."%char); [| by eexists].
  destruct (spanDigits rest). by eexists.
Qed.

(** X11. Whatever [validateInteger] accepts, [validateNumber] accepts
    too: a cell that passes as a whole number also passes as a number. *)
Theorem validateInteger_implies_validateNumber (value field1 field2 : string)
    (n : Z) :
  validateInteger value field1 = Returned n →
  ∃ num, validateNumber value field2 = Returned num.
Proof.
  unfold validateInteger, validateNumber, parseInt.
  destruct (parseIntMath value) as [m|] eqn:Hint; [| done]. intros _.
  unfold parseIntMath in Hint. unfold parseFloat.
  destruct (trimStart value) as [|c rest]; [done |].
  destruct (charEq c "-"%char) eqn:Hminus.
  - apply parseInt_digits, unsignedDecimalLiteral_digit in Hint as [lit ->].
    cbn. by eexists.
  - destruct (charEq c "+"%char) eqn:Hplus.
    + apply parseInt_digits, unsignedDecimalLiteral_digit in Hint as [lit ->].
      cbn. by eexists.
    + apply (parseInt_digits (String c rest) 1%Z m) in Hint.
      apply unsignedDecimalLiteral_digit in Hint as [lit ->]. by eexists.
Qed.

Lemma validateInteger_implies_validateNumber_witness :
  ∃ num, validateNumber " -42 units" "Price" = Returned num.
Proof.
  apply (validateInteger_implies_validateNumber " -42 units" "Quantity" "Price"
           (-42)%Z).
  reflexivity.
Defined.

End ValidatorMore.

(** ** The product and customer lists *)

Module ListFacts.

Import Js JsText TokenizerFacts.

Lemma includes_empty (s : string) : includes s EmptyString = true.
Proof. by destruct s. Qed.

Lemma includes_cons (c : ascii) (rest t : string) :
  includes (String c rest) t = isPrefixOf t (String c rest) || includes rest t.
Proof. reflexivity. Qed.

Lemma isPrefixOf_lower (p s : string) :
  isPrefixOf p s = true → isPrefixOf (toLowerCase p) (toLowerCase s) = true.
Proof.
  revert s. induction p as [|a p IH]; intros s; [done |].
  destruct s as [|b s]; [done |]. cbn [isPrefixOf toLowerCase].
  intros [Hab Hps]%andb_true_iff. apply charEq_true in Hab as ->.
  rewrite IH by done. unfold charEq. by rewrite Ascii.eqb_refl.
Qed.

(** Lower-casing both sides keeps an occurrence. *)
Lemma includes_lower (s t : string) :
  includes s t = true → includes (toLowerCase s) (toLowerCase t) = true.
Proof.
  induction s as [|c s IH].
  - cbn. rewrite !orb_false_r. apply (isPrefixOf_lower t EmptyString).
  - rewrite includes_cons. intros [Hhere | Hlater]%orb_true_iff.
    + change (toLowerCase (String c s)) with (String (lowerChar c) (toLowerCase s)).
      rewrite includes_cons.
      apply (isPrefixOf_lower t (String c s)) in Hhere.
      cbn [toLowerCase] in Hhere. by rewrite Hhere.
    + change (toLowerCase (String c s)) with (String (lowerChar c) (toLowerCase s)).
      rewrite includes_cons, IH by done. apply orb_true_r.
Qed.

Lemma filter_all {A} (P : A → Prop) `{∀ x, Decision (P x)} (l : list A) :
  (∀ x, x ∈ l → P x) → filter P l = l.
Proof.
  induction l as [|x l IH]; intros Hall; [done |].
  rewrite filter_cons_True by apply Hall, list_elem_of_here.
  f_equal. apply IH. intros y Hy. apply Hall. by right.
Qed.

(** [foldl setAdd] appends to what it starts from the elements that are
    new, each once and in the order they come. *)
Lemma uniqueInOrder_from (xs acc : list string) :
  NoDup acc →
  ∃ added, foldl setAdd acc xs = acc ++ added
           ∧ NoDup (acc ++ added)
           ∧ added `sublist_of` xs
           ∧ ∀ x, x ∈ acc ++ added ↔ x ∈ acc ∨ x ∈ xs.
Proof.
  revert acc. induction xs as [|x xs IH]; intros acc Hacc.
  - exists []. rewrite app_nil_r. split; [done |]. split; [done |].
    split; [done |]. intros x. rewrite elem_of_nil. tauto.
  - cbn [foldl]. unfold setAdd at 2. destruct (decide (x ∈ acc)) as [Hin | Hnew].
    + destruct (IH acc Hacc) as (added & Heq & Hnd & Hsub & Hmem).
      exists added. split; [done |]. split; [done |].
      split; [by apply sublist_cons |].
      intros y. rewrite Hmem, elem_of_cons. split; [tauto |].
      intros [? | [-> | ?]]; tauto.
    + destruct (IH (acc ++ [x])) as (added & Heq & Hnd & Hsub & Hmem).
      { apply NoDup_app. split; [done |]. split; [| apply NoDup_singleton].
        intros y Hy ->%list_elem_of_singleton. done. }
      exists (x :: added). rewrite <- app_assoc in Heq, Hnd, Hmem.
      split; [done |]. split; [done |]. split; [by apply sublist_skip |].
      intros y. rewrite Hmem, elem_of_app, list_elem_of_singleton, elem_of_cons.
      tauto.
Qed.

(** The same list, element by element: an element is kept at a
    position when it occurs neither in what the fold started from nor
    earlier in the list. *)
Lemma uniqueInOrder_positions (xs acc : list string) :
  foldl setAdd acc xs
  = acc ++ omap id (imap (λ i x,
      if decide (x ∈ acc ++ take i xs) then None else Some x) xs).
Proof.
  revert acc. induction xs as [|x xs IH]; intros acc.
  - cbn. by rewrite app_nil_r.
  - cbn [foldl]. rewrite IH, imap_cons. cbn [take omap list_omap].
    rewrite app_nil_r. unfold setAdd.
    destruct (decide (x ∈ acc)) as [Hin | Hnew]; cbn [id].
    + do 2 f_equal. apply imap_ext. intros i y _. cbn.
      destruct (decide (y ∈ acc ++ take i xs)) as [Hy | Hy];
        destruct (decide (y ∈ acc ++ x :: take i xs)) as [Hy' | Hy']; try done.
      * exfalso. apply Hy'. rewrite elem_of_app, elem_of_cons.
        apply elem_of_app in Hy as [? | ?]; tauto.
      * exfalso. apply Hy. rewrite elem_of_app.
        apply elem_of_app in Hy' as [? | [-> | ?]%elem_of_cons]; tauto.
    + rewrite <- app_assoc. cbn [app]. do 3 f_equal.
      apply imap_ext. intros i y _. cbn. by rewrite <- app_assoc.
Qed.

End ListFacts.

Module ProductsViewFacts.

Import Js JsText ProductsView ListFacts.

(** X14. With an empty search box and the category [all] selected, the
    page lists every product, in the order received. *)
Theorem filteredProducts_no_filter (products : list Product) :
  filteredProducts products EmptyString "all" = products.
Proof.
  unfold filteredProducts. apply filter_all. intros p _.
  unfold matchesSearch, matchesCategory. cbn [toLowerCase].
  by rewrite includes_empty.
Qed.

(** X15. On Latin-1 text (the strings of this development, on which
    [toLowerCase] maps each character on its own) the search ignores letter
    case: a product whose name or stock code contains the text typed, in any
    mix of cases, is listed, provided its category is the selected one or
    [all] is selected. *)
Theorem filteredProducts_finds (products : list Product) (p : Product)
    (typed text selected : string) :
  p ∈ products →
  toLowerCase typed = toLowerCase text →
  includes (name p) text = true ∨ includes (stockCode p) text = true →
  selected = "all" ∨ category p = selected →
  p ∈ filteredProducts products typed selected.
Proof.
  intros Hin Hcase Hfound Hcat. unfold filteredProducts.
  apply list_elem_of_filter. split; [| done].
  apply andb_true_iff. split.
  - unfold matchesSearch. rewrite Hcase. apply orb_true_iff.
    destruct Hfound as [H | H]; [left | right]; by apply includes_lower.
  - unfold matchesCategory. apply orb_true_iff.
    destruct Hcat as [-> | <-]; [by left | right; apply String.eqb_refl].
Qed.

Lemma filteredProducts_finds_witness :
  {| id := "1"; stockCode := "SKU-9"; name := "Claw Hammer"; category := "Tools";
     buyingPrice := 5; sellingPrice := 11; quantity := 9; supplierId := None |}
  ∈ filteredProducts
      [ {| id := "1"; stockCode := "SKU-9"; name := "Claw Hammer";
           category := "Tools"; buyingPrice := 5; sellingPrice := 11;
           quantity := 9; supplierId := None |} ]
      "HAMMER" "Tools".
Proof.
  apply (filteredProducts_finds _ _ "HAMMER" "Hammer" "Tools").
  - apply list_elem_of_here.
  - reflexivity.
  - by left.
  - by right.
Defined.

(** X16. The category choices are [all] followed by the categories of the
    products, each once and at the place of its first appearance: the
    category of a product is kept exactly when no earlier product has it.
    The whole list is free of duplicates exactly when no product has [all]
    as its own category. *)
Theorem categories_distinct (products : list Product) :
  ∃ cs, categories products = "all" :: cs
        ∧ cs = omap (λ kept, kept) (imap (λ i c,
            if decide (c ∈ take i (map category products)) then None else Some c)
            (map category products))
        ∧ NoDup cs
        ∧ cs `sublist_of` map category products
        ∧ (∀ c, c ∈ cs ↔ ∃ p, p ∈ products ∧ category p = c)
        ∧ (NoDup (categories products) ↔
           ¬ ∃ p, p ∈ products ∧ category p = "all").
Proof.
  unfold categories, uniqueInOrder.
  destruct (uniqueInOrder_from (map category products) [] (NoDup_nil_2))
    as (cs & Heq & Hnd & Hsub & Hmem).
  cbn [app] in *. exists cs. split; [by rewrite Heq |].
  split; [rewrite <- Heq, uniqueInOrder_positions; reflexivity |].
  split; [done |]. split; [done |].
  assert (Hcs : ∀ c, c ∈ cs ↔ ∃ p, p ∈ products ∧ category p = c).
  { intros c. rewrite Hmem. change (map ?f ?l) with (f <$> l).
    rewrite list_elem_of_fmap, elem_of_nil. split.
    - intros [[] | (p & -> & Hp)]. by exists p.
    - intros (p & Hp & <-). right. by exists p. }
  split; [done |]. rewrite Heq, NoDup_cons, Hcs. tauto.
Qed.

End ProductsViewFacts.

(** ** What the bulk imports post *)

Module ImportMore.

Import Js JsText JsRegExp ImportLib ParseView ParseFacts ValidatorView
  TextFacts RegExpFacts ValidatorMore SchemaSqlite SchemaEntities.

(** Every record of a parse is what the transform returned on some row
    object. *)
Lemma parseCSV_data_returned {T : Type} (columnMapping : list ColumnMapping)
    (transform : Transform T) (file : FileRead) (t : T) :
  t ∈ data (parseCSV columnMapping transform file) →
  ∃ row, applyTransform transform row = Returned t.
Proof.
  destruct file as [text|]; cbn [parseCSV]; [| by intros ?%elem_of_nil].
  unfold parseCSV_onload.
  destruct (nonBlankLines text) as [|headerLine rows] eqn:Hlines;
    [by intros ?%elem_of_nil |].
  pose proof (resolveColumns_errors columnMapping (parseCSVLine headerLine)) as Herr.
  destruct (resolveColumns (parseCSVLine headerLine) columnMapping)
    as [indices errs] eqn:Hres.
  cbn [snd] in Herr.
  destruct errs as [|e errs]; cbn [length Nat.ltb Nat.leb];
    [| by intros ?%elem_of_nil].
  rewrite parseRows_spec by eauto using rows_nonBlank. cbn [data app].
  intros (raw & Hraw & Hrec)%list_elem_of_omap.
  unfold rowRecord, rowOutcome in Hrec.
  destruct (applyTransform transform _) as [t'|] eqn:Happ; [| done].
  injection Hrec as ->. by eexists.
Qed.

Lemma validateRequired_returned (value fieldName v : string) :
  validateRequired value fieldName = Returned v →
  v ≠ EmptyString ∧ trim v = v.
Proof.
  unfold validateRequired.
  destruct (negb (truthy value) || String.eqb (trim value) EmptyString) eqn:Hbad;
    [done |].
  intros [= <-]. apply orb_false_iff in Hbad as [_ Hne].
  apply String.eqb_neq in Hne. split; [done | apply trim_idem].
Qed.

Lemma validateEmail_returned (value fieldName e : string) :
  validateEmail value fieldName = Returned e → emailShape e.
Proof.
  unfold validateEmail.
  destruct (test emailRegex (trim value)) eqn:Htest; cbn [negb]; [| done].
  intros [= <-]. by apply emailRegex_shape, test_correct.
Qed.

Section Products.

Import ProductsPage.

Context {Server : Type}.
Variable apiRequest : Server → InsertProduct → Server * bool.

Lemma productTransform_returned (row : RowData) (p : InsertProduct) :
  productTransform row = Returned p →
  (stockCode p ≠ EmptyString ∧ trim (stockCode p) = stockCode p)
  ∧ (name p ≠ EmptyString ∧ trim (name p) = name p)
  ∧ (category p ≠ EmptyString ∧ trim (category p) = category p)
  ∧ supplierId p ≠ Some EmptyString.
Proof.
  unfold productTransform.
  destruct (validateRequired (cell row "Stock Code") "Stock Code") as [sc|] eqn:H1;
    [| done].
  destruct (validateRequired (cell row "Product Name") "Product Name") as [nm|] eqn:H2;
    [| done].
  destruct (validateRequired (cell row "Category") "Category") as [ct|] eqn:H3;
    [| done].
  destruct (validateNumber (cell row "Buying Price") "Buying Price") as [bp|];
    [| done].
  destruct (validateNumber (cell row "Selling Price") "Selling Price") as [sp|];
    [| done].
  destruct (validateInteger (cell row "Quantity") "Quantity") as [q|]; [| done].
  intros [= <-]. cbn.
  apply validateRequired_returned in H1, H2, H3.
  split; [done |]. split; [done |]. split; [done |].
  by destruct (trim (cell row "Supplier ID")).
Qed.

Lemma posted_from_data (srv : Server) (file : option FileRead) (p : InsertProduct) :
  p ∈ posted (handleFileChange apiRequest srv file).1 →
  ∃ f, file = Some f
       ∧ p ∈ data (parseCSV productColumns (WithTransform productTransform) f).
Proof.
  unfold handleFileChange. destruct file as [f|]; [| by intros ?%elem_of_nil].
  destruct (Nat.ltb 0 _); cbn [fst posted]; [by intros ?%elem_of_nil |].
  destruct (ImportFacts.importLoop_spec apiRequest
    (data (parseCSV productColumns (WithTransform productTransform) f))
    {| server := srv; successCount := 0; failCount := 0; posted := [] |})
    as [Hposted _].
  rewrite Hposted. cbn [posted app]. by exists f.
Qed.

(** X17. Whatever the file and whatever the server answers, every product
    the bulk import posts has passed the row transform: its stock code, name
    and category are non-empty and carry no surrounding white space, and its
    supplier is either absent or non-empty. *)
Theorem posted_products_are_validated (srv : Server) (file : option FileRead)
    (p : InsertProduct) :
  p ∈ posted (handleFileChange apiRequest srv file).1 →
  (stockCode p ≠ EmptyString ∧ trim (stockCode p) = stockCode p)
  ∧ (name p ≠ EmptyString ∧ trim (name p) = name p)
  ∧ (category p ≠ EmptyString ∧ trim (category p) = category p)
  ∧ supplierId p ≠ Some EmptyString.
Proof.
  intros (f & _ & Hdata)%posted_from_data.
  apply parseCSV_data_returned in Hdata as [row Hrow].
  by apply productTransform_returned in Hrow.
Qed.

(** X18. A product object built by the import has the field types the
    product insert schema wants, and passes that schema exactly when its
    quantity is not negative: the import checks that the quantity is a whole
    number, the schema alone that it is at least zero. *)
Theorem product_body_against_schema (p : InsertProduct) :
  insertProductSchema (productBody p) = (0 <=? quantity p)%Z.
Proof.
  unfold insertProductSchema, productBody, required, optional. cbn [getProp String.eqb Ascii.eqb Bool.eqb zString andb].
  unfold zNonNegativeInt, zNumberInt, Qle_bool. cbn [Qnum Qden inject_Z].
  rewrite ?Z.rem_1_r, ?Z.mul_1_r. cbn [Z.eqb andb Z.mul].
  destruct (supplierId p); cbn; by rewrite andb_true_r.
Qed.

End Products.

Lemma posted_products_are_validated_witness :
  let anvil :=
    {| ProductsPage.stockCode := "A1"; ProductsPage.name := "Anvil";
       ProductsPage.category := "Tools"; ProductsPage.buyingPrice := "10.5";
       ProductsPage.sellingPrice := "20"; ProductsPage.quantity := 3;
       ProductsPage.supplierId := None |} in
  (ProductsPage.stockCode anvil ≠ EmptyString
   ∧ trim (ProductsPage.stockCode anvil) = ProductsPage.stockCode anvil)
  ∧ (ProductsPage.name anvil ≠ EmptyString
     ∧ trim (ProductsPage.name anvil) = ProductsPage.name anvil)
  ∧ (ProductsPage.category anvil ≠ EmptyString
     ∧ trim (ProductsPage.category anvil) = ProductsPage.category anvil)
  ∧ ProductsPage.supplierId anvil ≠ Some EmptyString.
Proof.
  intros anvil.
  apply (posted_products_are_validated Scenarios.acceptAll 0
           (Some (Loaded Scenarios.twoProducts)) anvil).
  vm_compute. apply list_elem_of_here.
Defined.

Section Customers.

Import CustomersPage.

Context {Server : Type}.
Variable apiRequest : Server → InsertCustomer → Server * bool.

Lemma customerLoop_posted (records : list InsertCustomer) (st : ImportState) :
  posted (foldl (postOne apiRequest) st records) = posted st ++ records.
Proof.
  revert st. induction records as [|c records IH]; intros st.
  - cbn. by rewrite app_nil_r.
  - cbn [foldl]. rewrite IH. unfold postOne.
    destruct (apiRequest (server st) c). cbn [posted]. by rewrite <- app_assoc.
Qed.

Lemma customerTransform_returned (row : RowData) (c : InsertCustomer) :
  customerTransform row = Returned c →
  (name c ≠ EmptyString ∧ trim (name c) = name c)
  ∧ (phone c ≠ EmptyString ∧ trim (phone c) = phone c)
  ∧ emailShape (email c).
Proof.
  unfold customerTransform.
  destruct (validateRequired (ProductsPage.cell row "Name") "Name") as [nm|] eqn:H1;
    [| done].
  destruct (validateRequired (ProductsPage.cell row "Phone") "Phone") as [ph|] eqn:H2;
    [| done].
  cbn. destruct (row !! "Email") as [value|]; [| done].
  destruct (validateEmail value "Email") as [em|] eqn:H3; [| done].
  intros [= <-]. cbn.
  apply validateRequired_returned in H1, H2. apply validateEmail_returned in H3.
  done.
Qed.

(** X19. The customer import is all or nothing like the product import:
    after any parse error nothing is posted. Every customer it does post has
    a non-empty, trimmed name and phone and an email of the shape
    [local@domain.tld], and its body passes the customer insert schema. *)
Theorem posted_customers_are_validated (srv : Server) (file : FileRead) :
  let r := parseCSV customerColumns (WithTransform customerTransform) file in
  let out := handleFileChange apiRequest srv (Some file) in
  (errors r ≠ [] → posted out.1 = [] ∧ server out.1 = srv)
  ∧ (errors r = [] → posted out.1 = data r)
  ∧ ∀ c, c ∈ posted out.1 →
      (name c ≠ EmptyString ∧ trim (name c) = name c)
      ∧ (phone c ≠ EmptyString ∧ trim (phone c) = phone c)
      ∧ emailShape (email c)
      ∧ insertCustomerSchema (customerBody c) = true.
Proof.
  intros r out. subst out. unfold handleFileChange. fold r.
  assert (Hvalid : ∀ c, c ∈ data r →
      (name c ≠ EmptyString ∧ trim (name c) = name c)
      ∧ (phone c ≠ EmptyString ∧ trim (phone c) = phone c)
      ∧ emailShape (email c)
      ∧ insertCustomerSchema (customerBody c) = true).
  { intros c Hc. apply parseCSV_data_returned in Hc as [row Hrow].
    apply customerTransform_returned in Hrow as (? & ? & ?). done. }
  destruct (errors r) as [|e errs] eqn:Herr; cbn [length Nat.ltb Nat.leb fst].
  - rewrite customerLoop_posted. cbn [posted app].
    split; [done |]. split; [done |]. done.
  - cbn [posted server]. split; [done |]. split; [done |].
    by intros c ?%elem_of_nil.
Qed.

End Customers.

(** A customers file whose only row has an email without a dot after the
    at sign. *)
Lemma posted_customers_are_validated_witness :
  CustomersPage.posted
    (CustomersPage.handleFileChange (λ (held : nat) _, (S held, true)) 0
       (Some (Loaded (Scenarios.line "Name,Phone,Email" "Ann,555,ann@home")))).1
  = [].
Proof.
  destruct (posted_customers_are_validated (λ (held : nat) _, (S held, true)) 0
              (Loaded (Scenarios.line "Name,Phone,Email" "Ann,555,ann@home")))
    as [Hstop _].
  apply Hstop. vm_compute. discriminate.
Defined.

End ImportMore.

Module CustomersViewFacts.

Import Js JsText CustomersPage ListFacts.

(** X20. With an empty search box every customer is listed, in the order
    received; and a customer whose phone number contains the text exactly as
    typed is listed. *)
Theorem filteredCustomers_plain (customers : list CustomerWithStats) :
  filteredCustomers customers EmptyString = customers
  ∧ ∀ c typed,
      c ∈ customers →
      includes (customerPhone c) typed = true →
      c ∈ filteredCustomers customers typed.
Proof.
  unfold filteredCustomers. split.
  - apply filter_all. intros c _. unfold customerMatches. cbn [toLowerCase].
    by rewrite !includes_empty.
  - intros c typed Hin Hphone. apply list_elem_of_filter. split; [| done].
    unfold customerMatches. rewrite Hphone. by rewrite orb_true_r.
Qed.

Lemma filteredCustomers_plain_witness :
  {| customerId := "7"; customerName := "Ann Lee"; customerPhone := "555-0101";
     customerEmail := "Ann@Home.org"; totalPurchases := 0; totalSpent := 0 |}
  ∈ filteredCustomers
      [ {| customerId := "7"; customerName := "Ann Lee";
           customerPhone := "555-0101"; customerEmail := "Ann@Home.org";
           totalPurchases := 0; totalSpent := 0 |} ]
      "-01".
Proof.
  destruct (filteredCustomers_plain
    [ {| customerId := "7"; customerName := "Ann Lee";
         customerPhone := "555-0101"; customerEmail := "Ann@Home.org";
         totalPurchases := 0; totalSpent := 0 |} ]) as [_ Hfinds].
  apply (Hfinds _ "-01").
  - apply list_elem_of_here.
  - reflexivity.
Defined.

(** X23. On Latin-1 text (the strings of this development, on which
    [toLowerCase] maps each character on its own) the customer search
    ignores letter case in the name and in the email: a customer whose name
    or email contains the text typed, in any mix of cases, is listed. *)
Theorem filteredCustomers_ignores_case (customers : list CustomerWithStats)
    (c : CustomerWithStats) (typed text : string) :
  c ∈ customers →
  toLowerCase typed = toLowerCase text →
  includes (customerName c) text = true
  ∨ includes (customerEmail c) text = true →
  c ∈ filteredCustomers customers typed.
Proof.
  intros Hin Hcase Hfound. unfold filteredCustomers.
  apply list_elem_of_filter. split; [| done]. unfold customerMatches.
  destruct Hfound as [H | H].
  - rewrite Hcase, (includes_lower _ _ H). done.
  - rewrite Hcase, (includes_lower _ _ H). by rewrite orb_true_r.
Qed.

Lemma filteredCustomers_ignores_case_witness :
  {| customerId := "7"; customerName := "Ann Lee"; customerPhone := "555-0101";
     customerEmail := "Ann@Home.org"; totalPurchases := 0; totalSpent := 0 |}
  ∈ filteredCustomers
      [ {| customerId := "7"; customerName := "Ann Lee";
           customerPhone := "555-0101"; customerEmail := "Ann@Home.org";
           totalPurchases := 0; totalSpent := 0 |} ]
      "home.ORG".
Proof.
  apply (filteredCustomers_ignores_case _ _ "home.ORG" "Home.org").
  - apply list_elem_of_here.
  - reflexivity.
  - by right.
Defined.

End CustomersViewFacts.

(** ** The desktop shell and the database selection *)

Module ShellFacts.

Import Js JsText Database Electron TokenizerFacts.

Lemma isPrefixOf_append (a b : string) : isPrefixOf a (a +:+ b) = true.
Proof.
  induction a as [|c a IH]; [done |]. rewrite append_cons. cbn [isPrefixOf].
  rewrite IH. unfold charEq. by rewrite Ascii.eqb_refl.
Qed.

Lemma dropChars_append (a b : string) : dropChars (String.length a) (a +:+ b) = b.
Proof.
  induction a as [|c a IH]; [by destruct b |]. by rewrite append_cons.
Qed.

Lemma replaceFirst_unfold (s pattern replacement : string) :
  replaceFirst s pattern replacement
  = if isPrefixOf pattern s
    then replacement +:+ dropChars (String.length pattern) s
    else match s with
         | String c rest => String c (replaceFirst rest pattern replacement)
         | EmptyString => EmptyString
         end.
Proof. by destruct s. Qed.

(** Removing a prefix with [replace] gives back what follows it, even when
    the prefix occurs again further on. *)
Lemma replaceFirst_prefix (a b : string) :
  replaceFirst (a +:+ b) a EmptyString = b.
Proof.
  rewrite replaceFirst_unfold, isPrefixOf_append, append_nil_l.
  apply dropChars_append.
Qed.

Lemma truthy_sqlite (p : string) : truthy ("sqlite:" +:+ p) = true.
Proof. reflexivity. Qed.

Lemma connect_sqlite_open (env : gmap string string) (p : string) :
  env !! "ELECTRON_MODE" = Some "true" →
  env !! "DATABASE_URL" = Some ("sqlite:" +:+ p) →
  connect env = Returned (Sqlite p).
Proof.
  intros Hmode Hurl. unfold connect. rewrite Hurl, Hmode, truthy_sqlite.
  rewrite bool_decide_eq_true_2 by done. cbn [negb andb].
  unfold startsWith. by rewrite isPrefixOf_append, replaceFirst_prefix.
Qed.

(** X21. In electron mode, a [DATABASE_URL] of the form [sqlite:<path>]
    opens the SQLite file at exactly [<path>], even if the path contains
    [sqlite:] again; and the module fails with its [DATABASE_URL must be
    set] error exactly when the variable is unset or empty. *)
Theorem connect_sqlite_path (env : gmap string string) :
  (∀ p, env !! "ELECTRON_MODE" = Some "true" →
        env !! "DATABASE_URL" = Some ("sqlite:" +:+ p) →
        connect env = Returned (Sqlite p))
  ∧ (connect env = throwError databaseUrlMissing ↔
     env !! "DATABASE_URL" = None ∨ env !! "DATABASE_URL" = Some EmptyString).
Proof.
  split.
  - intros p. apply connect_sqlite_open.
  - unfold connect. destruct (env !! "DATABASE_URL") as [url|]; [| by split; [left |]].
    destruct url as [|c url]; cbn [truthy negb].
    + split; [by right | done].
    + split.
      * by destruct (_ && _).
      * by intros [|].
Qed.

Lemma connect_sqlite_path_witness :
  connect {[ "ELECTRON_MODE" := "true";
             "DATABASE_URL" := "sqlite:/data/sqlite:copy.db" ]}
  = Returned (Sqlite "/data/sqlite:copy.db").
Proof.
  destruct (connect_sqlite_path {[ "ELECTRON_MODE" := "true";
      "DATABASE_URL" := "sqlite:/data/sqlite:copy.db" ]}) as [Hopen _].
  apply (Hopen "/data/sqlite:copy.db"); reflexivity.
Defined.

(** X22. The server that the desktop shell spawns always opens the SQLite
    file [saga-inventory.db] in the user-data directory, whatever the
    environment the shell itself was started with: the variables the shell
    sets override the inherited ones, including an inherited
    [DATABASE_URL]. The command is [tsx] in development and [node]
    otherwise. *)
Theorem spawned_server_uses_sqlite (pathJoin : list string → string)
    (dirname resourcesPath userData : string) (processEnv : gmap string string) :
  let child := startServer pathJoin dirname resourcesPath userData processEnv in
  connect (env child) = Returned (Sqlite (pathJoin [userData; "saga-inventory.db"]))
  ∧ env child !! "NODE_ENV" = Some "production"
  ∧ env child !! "PORT" = Some "5000"
  ∧ (∀ k, k ∉ ["NODE_ENV"; "ELECTRON_MODE"; "DATABASE_URL"; "PORT"] →
          env child !! k = processEnv !! k)
  ∧ (command child = "tsx" ↔ processEnv !! "NODE_ENV" = Some "development").
Proof.
  intros child. subst child. unfold startServer. cbn [env command].
  split; [| split; [| split; [| split]]].
  - apply connect_sqlite_open.
    + by rewrite !lookup_insert_ne, lookup_insert_eq by done.
    + by rewrite lookup_insert_ne, lookup_insert_eq by done.
  - by rewrite !lookup_insert_ne, lookup_insert_eq by done.
  - by rewrite lookup_insert_eq.
  - intros k Hk. rewrite !not_elem_of_cons in Hk.
    destruct Hk as (H1 & H2 & H3 & H4 & _).
    by rewrite !lookup_insert_ne by done.
  - destruct (bool_decide (processEnv !! "NODE_ENV" = Some "development")) eqn:Hdev.
    + apply bool_decide_eq_true in Hdev. done.
    + apply bool_decide_eq_false in Hdev. split; [done | done].
Qed.

Lemma spawned_server_uses_sqlite_witness :
  let child :=
    startServer (join "/") "/app/electron" "/app/resources" "/home/u/data"
      {[ "DATABASE_URL" := "postgres://db"; "HOME" := "/home/u" ]} in
  connect (env child) = Returned (Sqlite "/home/u/data/saga-inventory.db")
  ∧ env child !! "HOME" = Some "/home/u".
Proof.
  intros child.
  destruct (spawned_server_uses_sqlite (join "/") "/app/electron"
    "/app/resources" "/home/u/data"
    {[ "DATABASE_URL" := "postgres://db"; "HOME" := "/home/u" ]})
    as (Hconnect & _ & _ & Hkeep & _).
  split; [exact Hconnect |].
  subst child. rewrite (Hkeep "HOME"); [reflexivity |].
  rewrite !not_elem_of_cons. repeat split; try discriminate. apply not_elem_of_nil.
Defined.

End ShellFacts.

(** ** Numbers as text *)

Module NumberFacts.

Import Js JsText ImportLib TokenizerFacts.

Lemma digit_char (d : N) :
  (d < 10)%N →
  isDigit (pretty_N_char d) = true
  ∧ digitValue 10 (pretty_N_char d) = Some (Z.of_N d).
Proof.
  intros Hd.
  assert (Hcases : d = 0%N ∨ d = 1%N ∨ d = 2%N ∨ d = 3%N ∨ d = 4%N ∨ d = 5%N
                   ∨ d = 6%N ∨ d = 7%N ∨ d = 8%N ∨ d = 9%N) by lia.
  destruct Hcases as [-> | [-> | [-> | [-> | [-> | [-> | [-> | [-> | [-> | ->]]]]]]]]];
    by vm_compute.
Qed.

(** The decimal rendering of a positive number is a non-empty run of
    digits that [readDigits] reads back as that number. *)
Lemma pretty_go_digits (x : N) :
  (0 < x)%N →
  ∃ (ds : string) (k : Z),
    ds ≠ EmptyString ∧ allChars isDigit ds = true
    ∧ (∀ rest, pretty_N_go x rest = ds +:+ rest)
    ∧ ∀ rest acc,
        readDigits 10 (ds +:+ rest) acc
        = readDigits 10 rest (Some (default 0%Z acc * k + Z.of_N x)%Z).
Proof.
  induction x as [x IH] using (well_founded_induction N.lt_wf_0). intros Hpos.
  assert (Hd : (x `mod` 10 < 10)%N) by (apply N.mod_lt; lia).
  destruct (digit_char _ Hd) as [Hdigit Hvalue].
  pose proof (N.div_mod x 10 ltac:(done)) as Hx.
  assert (Hlt : (x `div` 10 < x)%N) by (apply N.div_lt; lia).
  revert Hdigit Hvalue Hx Hlt Hd.
  generalize (x `mod` 10)%N as d. intros d Hdigit Hvalue.
  pose proof (pretty_N_go_step x) as Hstep.
  revert Hstep. generalize (x `div` 10)%N as q. intros q Hstep Hx Hlt Hd.
  destruct (decide (q = 0)%N) as [-> | Hmore].
  - exists (String (pretty_N_char d) EmptyString), 10%Z.
    split; [done |]. split; [cbn; by rewrite Hdigit |]. split.
    + intros rest. rewrite Hstep by done. rewrite pretty_N_go_0.
      replace (x `mod` 10)%N with d; [done |].
      apply (N.mod_unique x 10 0 d); [done | lia].
    + intros rest acc. rewrite append_cons, append_nil_l. cbn [readDigits].
      rewrite Hvalue. do 2 f_equal. lia.
  - destruct (IH q) as (ds & k & Hne & Hall & Hgo & Hread); [done | lia |].
    exists (ds +:+ String (pretty_N_char d) EmptyString), (k * 10)%Z.
    split; [by destruct ds |]. split.
    + clear -Hall Hdigit. induction ds as [|c ds IHds].
      * rewrite append_nil_l. cbn. by rewrite Hdigit.
      * rewrite append_cons. cbn [allChars] in *.
        apply andb_true_iff in Hall as [-> Hall]. by apply IHds.
    + split.
      * intros rest. rewrite Hstep, Hgo by done. rewrite append_snoc.
        replace (x `mod` 10)%N with d; [done |].
        apply (N.mod_unique x 10 q d); [done | lia].
      * intros rest acc. rewrite append_snoc, Hread. cbn [readDigits].
        rewrite Hvalue. cbn [default]. do 2 f_equal. unfold id. lia.
Qed.

Lemma digit_is_plain (c : ascii) :
  isDigit c = true →
  isWhiteSpace c = false ∧ charEq c "-"%char = false
  ∧ charEq c "+"%char = false ∧ charEq c "x"%char = false
  ∧ charEq c "X"%char = false.
Proof.
  destruct c as [[] [] [] [] [] [] [] []]; intros Hc; try discriminate Hc;
    by vm_compute.
Qed.

(** The radix prefix needs an [x] in second place. *)
Lemma radix_without_x (c : ascii) (r : string) :
  match r with
  | String x _ => charEq x "x"%char = false ∧ charEq x "X"%char = false
  | EmptyString => True
  end →
  match String c r with
  | String "0"%char (String x rest) =>
      if charEq x "x"%char || charEq x "X"%char
      then (16%Z, rest) else (10%Z, String c r)
  | _ => (10%Z, String c r)
  end = (10%Z, String c r).
Proof.
  destruct r as [|x rest].
  - by destruct c as [[] [] [] [] [] [] [] []].
  - intros [-> ->]. by destruct c as [[] [] [] [] [] [] [] []].
Qed.

(** A run of digits, followed by nothing or by a dot, is read whole. *)
Lemma parseIntMath_digits (ds tail : string) (k x : Z) :
  ds ≠ EmptyString →
  allChars isDigit ds = true →
  (∀ rest acc, readDigits 10 (ds +:+ rest) acc
               = readDigits 10 rest (Some (default 0%Z acc * k + x)%Z)) →
  tail = EmptyString ∨ (∃ frac, tail = String "."%char frac) →
  parseIntMath (ds +:+ tail) = Some x.
Proof.
  intros Hne Hall Hread Htail. destruct ds as [|c r]; [done |].
  assert (Hc : isDigit c = true).
  { cbn [allChars] in Hall. by apply andb_true_iff in Hall as [? _]. }
  destruct (digit_is_plain c Hc) as (Hws & Hminus & Hplus & _ & _).
  unfold parseIntMath. rewrite append_cons. cbn [trimStart].
  rewrite Hws, Hminus, Hplus.
  rewrite radix_without_x.
  - rewrite <- append_cons, Hread. cbn [default].
    destruct Htail as [-> | [frac ->]]; cbn [readDigits];
      change (digitValue 10 "."%char) with (@None Z); cbn [fmap option_fmap option_map];
      f_equal; lia.
  - destruct r as [|d rest].
    + rewrite append_nil_l. by destruct Htail as [-> | [frac ->]].
    + rewrite append_cons. cbn [allChars] in Hall.
      apply andb_true_iff in Hall as [_ Hall].
      apply andb_true_iff in Hall as [Hd _].
      by destruct (digit_is_plain d Hd) as (_ & _ & _ & -> & ->).
Qed.

(** The decimal text of [n], alone or followed by a dot and anything, is
    read by [parseIntMath] as [n]. *)
Lemma parseIntMath_rendering (n : nat) (tail : string) :
  tail = EmptyString ∨ (∃ frac, tail = String "."%char frac) →
  parseIntMath (showNat n +:+ tail) = Some (Z.of_nat n).
Proof.
  intros Htail. unfold showNat, pretty, pretty_nat, pretty, pretty_N.
  destruct (decide (N.of_nat n = 0%N)) as [Hzero | Hpos].
  - assert (n = 0) as -> by lia.
    by destruct Htail as [-> | [frac ->]].
  - destruct (pretty_go_digits (N.of_nat n)) as (ds & k & Hne & Hall & Hgo & Hread);
      [lia |].
    rewrite Hgo, append_empty_r.
    rewrite (parseIntMath_digits ds tail k (Z.of_N (N.of_nat n))) by done.
    f_equal. lia.
Qed.

Lemma roundToDouble_exact (z : Z) :
  (Z.abs z < 2 ^ 53)%Z → roundToDouble z = Integer z.
Proof.
  intros Hsmall. unfold roundToDouble.
  by destruct (Z.ltb_spec (Z.abs z) (2 ^ 53)); [| lia].
Qed.

(** X12. The decimal text of a non-negative whole number below 2^53 (the
    range in which every integer is a double) reads back as that number:
    [validateInteger] accepts the rendering of such an [n] and returns
    [n]. *)
Theorem validateInteger_reads_rendering (n : nat) (fieldName : string) :
  (Z.of_nat n < 2 ^ 53)%Z →
  validateInteger (showNat n) fieldName = Returned (Z.of_nat n).
Proof.
  intros Hsmall. unfold validateInteger, parseInt.
  rewrite <- (append_empty_r (showNat n)).
  rewrite parseIntMath_rendering by (by left).
  rewrite roundToDouble_exact by lia. done.
Qed.

Lemma validateInteger_reads_rendering_witness :
  validateInteger (showNat 4096) "Quantity" = Returned 4096%Z.
Proof. apply (validateInteger_reads_rendering 4096 "Quantity"). reflexivity. Defined.

Lemma showNat_digits (n : nat) : allChars isDigit (showNat n) = true.
Proof.
  unfold showNat, pretty, pretty_nat, pretty, pretty_N.
  destruct (decide (N.of_nat n = 0%N)) as [Hzero | Hpos]; [done |].
  destruct (pretty_go_digits (N.of_nat n)) as (ds & k & _ & Hall & Hgo & _);
    [lia |].
  by rewrite Hgo, append_empty_r.
Qed.

(** Two runs of digits, each followed by a colon, that give the same text
    are the same run. *)
Lemma digits_before_colon (ds ds' r r' : string) :
  allChars isDigit ds = true →
  allChars isDigit ds' = true →
  ds +:+ String ":"%char r = ds' +:+ String ":"%char r' →
  ds = ds' ∧ r = r'.
Proof.
  revert ds'. induction ds as [|c ds IH]; intros [|c' ds'] Hds Hds';
    rewrite ?append_nil_l, ?append_cons.
  - by intros [= ->].
  - intros [= <- _]. cbn in Hds'. discriminate.
  - intros [= -> _]. cbn in Hds. discriminate.
  - intros [= -> Heq]. cbn [allChars] in Hds, Hds'.
    apply andb_true_iff in Hds as [_ Hds]. apply andb_true_iff in Hds' as [_ Hds'].
    by destruct (IH ds' Hds Hds' Heq) as [-> ->].
Qed.

Lemma row_message_inj (n n' : nat) (m m' : string) :
  "Error on row " +:+ showNat n +:+ ": " +:+ m
  = "Error on row " +:+ showNat n' +:+ ": " +:+ m' →
  n = n' ∧ m = m'.
Proof.
  intros Heq. apply (inj (String.append "Error on row ")) in Heq.
  change (": " +:+ m) with (String ":"%char (String " "%char m)) in Heq.
  change (": " +:+ m') with (String ":"%char (String " "%char m')) in Heq.
  apply digits_before_colon in Heq as [Hn Hm]; [| apply showNat_digits..].
  split; [| by injection Hm]. unfold showNat in Hn. by apply (inj pretty) in Hn.
Qed.

Lemma NoDup_omap_imap {A} (f : nat → A → option string) (l : list A) :
  (∀ j j' x x' m, f j x = Some m → f j' x' = Some m → j = j') →
  NoDup (omap id (imap f l)).
Proof.
  revert f. induction l as [|x l IH]; intros f Hinj; [constructor |].
  rewrite imap_cons. cbn [omap list_omap].
  assert (Htail : NoDup (omap id (imap (f ∘ S) l))).
  { apply IH. intros j j' y y' m Hj Hj'. cbn in Hj, Hj'.
    by injection (Hinj _ _ _ _ _ Hj Hj'). }
  destruct (f 0 x) as [m|] eqn:Hhead; cbn [id]; [| done].
  constructor; [| done].
  intros (o & Ho & Hm)%list_elem_of_omap. cbn in Hm. subst o.
  apply elem_of_lookup_imap_1 in Ho as (j & y & Hfy & _). cbn in Hfy.
  symmetry in Hfy. by specialize (Hinj _ _ _ _ _ Hhead Hfy).
Qed.

(** X9. The error strings of the row stage can be told apart: a string
    determines its row number and its message, and once the header row
    resolves every column no two errors of a parse coincide. *)
Theorem parseCSV_row_errors_distinct {T : Type}
    (columnMapping : list ColumnMapping) (transform : Transform T)
    (text headerLine : string) (rows : list string) :
  nonBlankLines text = headerLine :: rows →
  ParseView.missingEntries (parseCSVLine headerLine) columnMapping = [] →
  NoDup (errors (parseCSV columnMapping transform (Loaded text)))
  ∧ ∀ i j e e', rowError i e = rowError j e' →
      i = j ∧ thrownMessage e = thrownMessage e'.
Proof.
  intros Hlines Hnone. split.
  - rewrite (ParseFacts.parseCSV_resolved _ _ _ _ _ Hlines Hnone).
    rewrite ParseFacts.parseRows_spec by eauto using ParseFacts.rows_nonBlank.
    cbn [errors app]. apply NoDup_omap_imap.
    intros j j' raw raw' m Hj Hj'. unfold ParseView.rowFailure in Hj, Hj'.
    destruct (ParseView.rowOutcome _ _ _ raw) as [|e]; [done |].
    destruct (ParseView.rowOutcome _ _ _ raw') as [|e']; [done |].
    pose proof (eq_trans Hj (eq_sym Hj')) as Heq. apply (inj Some) in Heq.
    apply row_message_inj in Heq as [Heq _]. lia.
  - intros i j e e' Heq. unfold rowError in Heq.
    apply row_message_inj in Heq as [Hij Hm]. split; [lia | done].
Qed.

Lemma parseCSV_row_errors_distinct_witness :
  NoDup (errors (parseCSV Scenarios.stockColumns
                   (WithTransform Scenarios.stockTransform)
                   (Loaded Scenarios.stockText)))
  ∧ ∀ i j e e', rowError i e = rowError j e' →
      i = j ∧ thrownMessage e = thrownMessage e'.
Proof.
  apply (parseCSV_row_errors_distinct Scenarios.stockColumns
           (WithTransform Scenarios.stockTransform)
           Scenarios.stockText "name, QTY ,note" ["bolt,4"; "nut,many"; " ,3"]).
  - reflexivity.
  - reflexivity.
Defined.

End NumberFacts.

(** ** [validateInteger] on fractional text *)

Module ValidatorFacts.

Import Js JsText ImportLib TokenizerFacts NumberFacts.

(** C4, on the code: [validateInteger] does not reject a fractional value.
    [parseInt] stops at the dot, so the text [3.7] is returned as 3, and in
    general the decimal text of any whole number [n] below 2^53 followed by
    a dot and any fraction is returned as [n]; the [Number.isInteger] test
    comes after the truncation and passes. *)
Theorem validateInteger_truncates_fraction :
  validateInteger "3.7" "Quantity" = Returned 3%Z
  ∧ ∀ (n : nat) (frac fieldName : string),
      (Z.of_nat n < 2 ^ 53)%Z →
      validateInteger (showNat n +:+ String "."%char frac) fieldName
      = Returned (Z.of_nat n).
Proof.
  split; [reflexivity |]. intros n frac fieldName Hsmall.
  unfold validateInteger, parseInt.
  rewrite parseIntMath_rendering by (right; by eexists).
  rewrite roundToDouble_exact by lia. done.
Qed.

Lemma validateInteger_truncates_fraction_witness :
  validateInteger "12.99" "Quantity" = Returned 12%Z.
Proof.
  destruct validateInteger_truncates_fraction as [_ Hany].
  apply (Hany 12 "99" "Quantity"). reflexivity.
Defined.

End ValidatorFacts.
